(** * Weekly usage quota with background persistence (app.py)

    A shallow embedding of the credit handlers [check_credit] and
    [use_credit], of the startup load [load_initial_data] and of the publish
    cycle [persist_data_to_hub] of app.py, followed by the properties the
    specification states about them.

    Modelling conventions.
    - A usage record is a Python dict read through [.get] with defaults, so a
      record has three optional fields.  Fields that are present carry the
      types of the data model (a string id, integer count and week_start).
    - Timestamps ([time.time()]) are exact integers, in seconds.
    - [usage_data_cache] is a list of records.  Records are mutated in place
      and new ones are appended; nothing is ever removed or reordered, so the
      position of a record in the list is its identity.
    - [data_changed] (a threading.Event) is a boolean.
    - The handlers are modelled from the derived user identifier on; the
      identifier is a string and the empty string stands for every falsy
      identifier.  The routes around them ([get_user_identifier] and the
      checks on the body) take the JSON body as a finite map from keys to
      values, with Python's [bool()] and [str()] on values as parameters.
    - The key pool and [enhance_animation_prompt] are modelled with the
      Gemini client as a parameter that gives a reply for a key at an
      attempt; the prompt text is fixed within a request and plays no part.
      Strings there are sequences of code points below 256. *)

From Stdlib Require Import Ascii.
From stdpp Require Import base option list strings numbers relations gmap.

Open Scope string_scope.
Open Scope Z_scope.

(** ** Configuration *)

Definition USAGE_LIMIT : Z := 5.
Definition one_week_seconds : Z := 7 * 24 * 60 * 60.

(** ** Data model *)

(** One element of [usage_data_cache]: a dict with the keys 'id', 'count'
    and 'week_start', each of which may be missing. *)
Record usage_record : Type := UsageRecord {
  id : option string;
  count : option Z;
  week_start : option Z
}.

#[global] Instance usage_record_eq_dec : EqDecision usage_record.
Proof. solve_decision. Defined.

(** The module globals the handlers and the persister share, and the log of
    documents that [api.upload_file] committed to the dataset repository
    (newest first). *)
Record state : Type := State {
  usage_data_cache : list usage_record;
  data_changed : bool;
  uploaded : list (list usage_record)
}.

(** What a handler hands back to Flask. *)
Inductive response : Type :=
| BadRequest (error : string)                                   (* 400 *)
| CreditStatus (credits_remaining : Z) (limit_reached : bool)
               (reset_timestamp : Z)                            (* 200 *)
| Success (credits_remaining : Z)                               (* 200 *)
| LimitReached (credits_remaining : Z) (reset_timestamp : Z).   (* 429 *)

Inductive exn : Type :=
| KeyError
| JSONDecodeError
| RepositoryNotFoundError
| EntryNotFoundError
| OtherException.

Inductive outcome (A : Type) : Type :=
| Return (a : A)
| Raise (e : exn).
Arguments Return {A} a.
Arguments Raise {A} e.

(** ** Record access *)

(** [user.get('week_start', d)] and [user.get('count', d)]. *)
Definition get_week_start (user : usage_record) (d : Z) : Z :=
  default d (week_start user).
Definition get_count (user : usage_record) (d : Z) : Z :=
  default d (count user).

(** [user.get('id') == user_id]; an id that is missing, or is not a string,
    equals no identifier. *)
Definition has_id (user_id : string) (user : usage_record) : Prop :=
  id user = Some user_id.

#[global] Instance has_id_dec user_id user : Decision (has_id user_id user).
Proof. unfold has_id. apply _. Defined.

(** [next((user for user in usage_data_cache if user.get('id') == user_id),
    None)]: the first matching record, with its position.  A record that
    matches has the key 'id', so it is a non-empty dict and the test
    [if user_record:] of the handlers succeeds exactly when one is found. *)
Definition find_user (user_id : string) (cache : list usage_record)
  : option (nat * usage_record) :=
  list_find (has_id user_id) cache.

(** [user_record.get('week_start', 0) < (now - one_week_seconds)]. *)
Definition window_expired (user : usage_record) (now : Z) : bool :=
  get_week_start user 0 <? now - one_week_seconds.

(** [user_record['count'] = 0; user_record['week_start'] = now]. *)
Definition reset_window (user : usage_record) (now : Z) : usage_record :=
  {| id := id user; count := Some 0; week_start := Some now |}.

(** [user_record['count'] = c], on a record that has the key. *)
Definition set_count (user : usage_record) (c : Z) : usage_record :=
  {| id := id user; count := Some c; week_start := week_start user |}.

(** In-place mutation of the record at position [i]. *)
Definition store (i : nat) (user : usage_record) (s : state) : state :=
  {| usage_data_cache := <[i := user]> (usage_data_cache s);
     data_changed := data_changed s;
     uploaded := uploaded s |}.

(** [usage_data_cache.append(user)]. *)
Definition append (user : usage_record) (s : state) : state :=
  {| usage_data_cache := usage_data_cache s ++ [user];
     data_changed := data_changed s;
     uploaded := uploaded s |}.

(** [data_changed.set()] and [data_changed.clear()]. *)
Definition set_changed (s : state) : state :=
  {| usage_data_cache := usage_data_cache s;
     data_changed := true;
     uploaded := uploaded s |}.
Definition clear_changed (s : state) : state :=
  {| usage_data_cache := usage_data_cache s;
     data_changed := false;
     uploaded := uploaded s |}.

(** Python truthiness of a string. *)
Definition truthy (user_id : string) : bool :=
  match user_id with
  | EmptyString => false
  | String _ _ => true
  end.

(** ** The handlers *)

(** [check_credit], from [user_id] on, at clock reading [now]. *)
Definition check_credit (user_id : string) (now : Z) (s : state)
  : response * state :=
  if negb (truthy user_id) then
    (BadRequest "User identifier is required.", s)
  else
    match find_user user_id (usage_data_cache s) with
    | None => (CreditStatus USAGE_LIMIT false 0, s)
    | Some (i, user_record) =>
        let '(user_record, s) :=
          if window_expired user_record now then
            let r := reset_window user_record now in
            (r, set_changed (store i r s))
          else (user_record, s) in
        let credits_remaining :=
          Z.max 0 (USAGE_LIMIT - get_count user_record 0) in
        if credits_remaining =? 0 then
          (CreditStatus credits_remaining true
             (get_week_start user_record now + one_week_seconds), s)
        else
          (CreditStatus credits_remaining false 0, s)
    end.

(** [use_credit], from [user_id] on, at clock reading [now].  The only
    exception the body can raise is the KeyError of
    [user_record['count'] += 1] on a record without the key. *)
Definition use_credit (user_id : string) (now : Z) (s : state)
  : outcome response * state :=
  if negb (truthy user_id) then
    (Return (BadRequest "User identifier is required."), s)
  else
    match find_user user_id (usage_data_cache s) with
    | Some (i, user_record) =>
        let '(user_record, s) :=
          if window_expired user_record now then
            let r := reset_window user_record now in
            (r, store i r s)
          else (user_record, s) in
        if USAGE_LIMIT <=? get_count user_record 0 then
          (Return (LimitReached 0
                     (get_week_start user_record now + one_week_seconds)), s)
        else
          match count user_record with
          | None => (Raise KeyError, s)
          | Some c =>
              (Return (Success (USAGE_LIMIT - (c + 1))),
               set_changed (store i (set_count user_record (c + 1)) s))
          end
    | None =>
        let user_record :=
          {| id := Some user_id; count := Some 1; week_start := Some now |} in
        (Return (Success (USAGE_LIMIT - 1)),
         set_changed (append user_record s))
    end.

(** Sequential calls of [use_credit] for one identifier, one per clock
    reading, with the responses in call order. *)
Fixpoint use_credit_seq (user_id : string) (times : list Z) (s : state)
  : list (outcome response) * state :=
  match times with
  | [] => ([], s)
  | now :: times =>
      let '(r, s) := use_credit user_id now s in
      let '(rs, s) := use_credit_seq user_id times s in
      (r :: rs, s)
  end.

(** ** The remote-store client *)

Inductive HfApi : Type := MkHfApi (token : string).

(** [api = None; if not HF_TOKEN: ... else: api = HfApi(token=HF_TOKEN)]. *)
Definition init_api (HF_TOKEN : option string) : option HfApi :=
  match HF_TOKEN with
  | Some token => if truthy token then Some (MkHfApi token) else None
  | None => None
  end.

(** ** Publishing *)

(** What the try block of [persist_data_to_hub] runs into: the temporary
    file cannot be created, [json.dump] raises, [api.upload_file] raises, or
    the upload goes through. *)
Inductive publish_outcome : Type :=
| TempFileFails
| DumpFails
| UploadFails
| UploadSucceeds.

(** The file-system and network actions of a publish cycle, in order. *)
Inductive io_event : Type :=
| TempFileWritten (doc : list usage_record)
| TempFileCreated
| UploadCalled (doc : list usage_record)
| TempFileRemoved.

(** A successful [api.upload_file]: the document replaces the remote one. *)
Definition commit (doc : list usage_record) (s : state) : state :=
  {| usage_data_cache := usage_data_cache s;
     data_changed := data_changed s;
     uploaded := doc :: uploaded s |}.

(** The try / except / finally block, after the snapshot was taken and the
    flag cleared.  The temporary file is removed in the finally clause when
    it was created; [os.remove] itself is taken to succeed. *)
Definition publish (o : publish_outcome) (data_to_write : list usage_record)
    (s : state) : list io_event * state :=
  match o with
  | TempFileFails => ([], set_changed s)
  | DumpFails => ([TempFileCreated; TempFileRemoved], set_changed s)
  | UploadFails =>
      ([TempFileWritten data_to_write; UploadCalled data_to_write;
        TempFileRemoved], set_changed s)
  | UploadSucceeds =>
      ([TempFileWritten data_to_write; UploadCalled data_to_write;
        TempFileRemoved], commit data_to_write s)
  end.

(** One publish cycle, run without interruption. *)
Definition persist_data_to_hub (api : option HfApi) (o : publish_outcome)
    (s : state) : list io_event * state :=
  if negb (data_changed s) || negb (bool_decide (is_Some api)) then ([], s)
  else
    let data_to_write := usage_data_cache s in
    let s := clear_changed s in
    publish o data_to_write s.

(** ** Startup load *)

(** What the with-block of [load_initial_data] meets outside [json.loads]:
    some step of it (the temporary directory, [hf_hub_download], [open],
    [f.read()]) raises, or the content of the remote file is read. *)
Inductive download_outcome : Type :=
| DownloadRaises (e : exn)
| Downloaded (content : string).

Definition set_cache (records : list usage_record) (s : state) : state :=
  {| usage_data_cache := records;
     data_changed := data_changed s;
     uploaded := uploaded s |}.

Section Load.

(** [json.loads], restricted to documents that are arrays of usage
    records; [None] stands for a JSONDecodeError. *)
Variable json_loads : string -> option (list usage_record).

(** The body of the try block. *)
Definition load_body (d : download_outcome) (s : state)
  : outcome unit * state :=
  match d with
  | DownloadRaises e => (Raise e, s)
  | Downloaded content =>
      if truthy content then
        match json_loads content with
        | Some records => (Return tt, set_cache records s)
        | None => (Raise JSONDecodeError, s)
        end
      else (Return tt, set_cache [] s)
  end.

(** [load_initial_data]: every exception class of the model derives from
    [Exception], so the last handler catches what the first two do not. *)
Definition load_initial_data (api : option HfApi) (d : download_outcome)
    (s : state) : outcome unit * state :=
  match api with
  | None => (Return tt, s)
  | Some _ =>
      match load_body d s with
      | (Return tt, s) => (Return tt, s)
      | (Raise JSONDecodeError, s) => (Return tt, set_cache [] s)
      | (Raise RepositoryNotFoundError, s)
      | (Raise EntryNotFoundError, s) => (Return tt, set_cache [] s)
      | (Raise _, s) => (Return tt, set_cache [] s)
      end
  end.

End Load.

(** The module globals right after import: [usage_data_cache = []], the
    event clear, nothing uploaded yet. *)
Definition startup : state :=
  {| usage_data_cache := []; data_changed := false; uploaded := [] |}.

(** [background_persister], for as many wake-ups as there are outcomes in
    [os]: one publish cycle per wake-up, with no request served in
    between. *)
Fixpoint background_persister (api : option HfApi) (os : list publish_outcome)
    (s : state) : list io_event * state :=
  match os with
  | [] => ([], s)
  | o :: os =>
      let '(ev, s) := persist_data_to_hub api o s in
      let '(evs, s) := background_persister api os s in
      ((ev ++ evs)%list, s)
  end.

(** ** Request handling interleaved with the persister thread *)

(** A request as the quota engine sees it: the handler, the identifier and
    the clock reading taken under [cache_lock]. *)
Inductive request : Type :=
| CheckCredit (user_id : string) (now : Z)
| UseCredit (user_id : string) (now : Z).

Definition handle (q : request) (s : state) : state :=
  match q with
  | CheckCredit user_id now => (check_credit user_id now s).2
  | UseCredit user_id now => (use_credit user_id now s).2
  end.

(** Requests served one after the other. *)
Definition serve (qs : list request) (s : state) : state :=
  foldl (fun s q => handle q s) s qs.

(** Where the persister thread stands inside [persist_data_to_hub].
    [data_to_write = list(usage_data_cache)] is a new list of the same dict
    objects: it is the first [n] records of the cache, whatever their
    contents are by the time [json.dump] reads them. *)
Inductive phase : Type :=
| Idle
| Snapshotted (n : nat)
| Dumped (doc : list usage_record).

(** One atomic step of the process: a handler runs its critical section, or
    the persister thread advances.  [cache_lock] is released after the
    snapshot, so handlers run between the steps of a publish cycle. *)
Inductive step (api : option HfApi) : state * phase -> state * phase -> Prop :=
| step_request q s ph :
    step api (s, ph) (handle q s, ph)
| step_snapshot s :
    data_changed s = true ->
    is_Some api ->
    step api (s, Idle)
         (clear_changed s, Snapshotted (length (usage_data_cache s)))
| step_dump s n :
    step api (s, Snapshotted n) (s, Dumped (take n (usage_data_cache s)))
| step_dump_fails s n :
    step api (s, Snapshotted n) (set_changed s, Idle)
| step_upload s doc :
    step api (s, Dumped doc) (commit doc s, Idle)
| step_upload_fails s doc :
    step api (s, Dumped doc) (set_changed s, Idle).

(** The document the remote store holds: the last upload, or the document
    [init] found at startup while nothing was uploaded. *)
Definition last_persisted (init : list usage_record) (s : state)
  : list usage_record :=
  hd init (uploaded s).

(** What a clear flag promises at each point of a publish cycle: between
    cycles, that the cache is the persisted document; after the snapshot,
    that the cache still has the [n] records of the snapshot; after the dump,
    that the cache is the document in the temporary file. *)
Definition synced (init : list usage_record) (c : state * phase) : Prop :=
  data_changed c.1 = false ->
  match c.2 with
  | Idle => usage_data_cache c.1 = last_persisted init c.1
  | Snapshotted n => n = length (usage_data_cache c.1)
  | Dumped doc => doc = usage_data_cache c.1
  end.

(** ** Specification-side vocabulary *)

(** The data-model bound on a record: [count] is present and lies in
    [[0, USAGE_LIMIT]]. *)
Definition count_in_range (user : usage_record) : Prop :=
  exists c, count user = Some c /\ 0 <= c <= USAGE_LIMIT.

(** The "status" field of the JSON body of a response, when it has one. *)
Definition status (r : outcome response) : option string :=
  match r with
  | Return (Success _) => Some "success"
  | Return (LimitReached _ _) => Some "limit_reached"
  | _ => None
  end.

(** The number of responses with status "success". *)
Definition successes (rs : list (outcome response)) : nat :=
  length (filter (fun r => status r = Some "success") rs).

(** The start of the accounting window that a call at [now] leaves in force
    for the identifier: the stored one while it lasts, [now] otherwise. *)
Definition window_start_at (user_id : string) (now : Z) (s : state) : Z :=
  match find_user user_id (usage_data_cache s) with
  | Some (_, user_record) =>
      if window_expired user_record now then now
      else get_week_start user_record 0
  | None => now
  end.

(** Concrete records and caches for the examples. *)
Definition u1_record (c ws : Z) : usage_record :=
  {| id := Some "u1"; count := Some c; week_start := Some ws |}.
Definition u2_record (c ws : Z) : usage_record :=
  {| id := Some "u2"; count := Some c; week_start := Some ws |}.

Definition cache_of (l : list usage_record) : state :=
  {| usage_data_cache := l; data_changed := false; uploaded := [] |}.

(** The double quote character, as a one-character string. *)
Definition double_quote : string := String "034"%char EmptyString.

(** The JSON text of a remote document that holds one record of "u1" with
    [count] 3 and [week_start] 1699990000. *)
Definition sample_document : string :=
  ("[{" ++ double_quote ++ "id" ++ double_quote ++ ": "
   ++ double_quote ++ "u1" ++ double_quote ++ ", "
   ++ double_quote ++ "count" ++ double_quote ++ ": 3, "
   ++ double_quote ++ "week_start" ++ double_quote ++ ": 1699990000}]")%string.

(** What [json.loads] gives on the documents of the examples: the empty
    array, [sample_document], and text that is not JSON. *)
Definition sample_json_loads (content : string)
  : option (list usage_record) :=
  if decide (content = "[]") then Some []
  else if decide (content = sample_document)
  then Some [u1_record 3 1699990000]
  else None.

(** The identifier and the clock reading of a request. *)
Definition request_user (q : request) : string :=
  match q with
  | CheckCredit user_id _ => user_id
  | UseCredit user_id _ => user_id
  end.
Definition request_time (q : request) : Z :=
  match q with
  | CheckCredit _ now => now
  | UseCredit _ now => now
  end.

(** The identifiers that have a record, in cache order. *)
Definition ids (cache : list usage_record) : list string :=
  omap id cache.

(** ** Strings

    A Python [str] is modelled by a [string] whose characters are the code
    points below 256. *)

(** [c.isspace()] on those code points: tab to carriage return, the four
    separators 0x1c-0x1f, space, NEL (0x85) and the no-break space. *)
Definition isspace (c : ascii) : bool :=
  let n := nat_of_ascii c in
  ((9 <=? n) && (n <=? 13) || (28 <=? n) && (n <=? 32)
   || (n =? 133) || (n =? 160))%nat.

(** [s.lstrip()], [s.rstrip()] and [s.strip()]. *)
Fixpoint lstrip (s : string) : string :=
  match s with
  | EmptyString => EmptyString
  | String c s' => if isspace c then lstrip s' else s
  end.

Fixpoint rstrip (s : string) : string :=
  match s with
  | EmptyString => EmptyString
  | String c s' =>
      match rstrip s' with
      | EmptyString => if isspace c then EmptyString else String c EmptyString
      | r => String c r
      end
  end.

Definition strip (s : string) : string := lstrip (rstrip s).

(** [s.split(',')]: the pieces between the commas, at least one. *)
Fixpoint split_comma (s : string) : list string :=
  match s with
  | EmptyString => [EmptyString]
  | String c s' =>
      if Ascii.eqb c ","%char then EmptyString :: split_comma s'
      else
        match split_comma s' with
        | piece :: pieces => String c piece :: pieces
        | [] => [String c EmptyString]
        end
  end.

(** [c in s]. *)
Fixpoint occurs (c : ascii) (s : string) : bool :=
  match s with
  | EmptyString => false
  | String a s' => Ascii.eqb a c || occurs c s'
  end.

(** The first and the last character of a string. *)
Definition first_char (s : string) : option ascii :=
  match s with
  | EmptyString => None
  | String c _ => Some c
  end.

Fixpoint last_char (s : string) : option ascii :=
  match s with
  | EmptyString => None
  | String c EmptyString => Some c
  | String _ s' => last_char s'
  end.

(** A string that [strip] would leave alone and that [split(',')] would not
    cut: no white space at either end, no comma. *)
Definition clean (s : string) : Prop :=
  s ≠ EmptyString
  /\ occurs ","%char s = false
  /\ (forall c, first_char s = Some c -> isspace c = false)
  /\ (forall c, last_char s = Some c -> isspace c = false).

(** [','.join(pieces)]. *)
Fixpoint join_comma (pieces : list string) : string :=
  match pieces with
  | [] => EmptyString
  | [piece] => piece
  | piece :: pieces => (piece ++ String ","%char (join_comma pieces))%string
  end.

(** ** The pool of Gemini keys *)

(** [[key.strip() for key in ALL_GEMINI_API_KEYS.split(',') if key.strip()]]. *)
Definition parse_gemini_keys (ALL_GEMINI_API_KEYS : string) : list string :=
  strip <$> List.filter (fun key => truthy (strip key))
                        (split_comma ALL_GEMINI_API_KEYS).

(** [gemini_keys] after import: empty without the secret. *)
Definition load_gemini_keys (ALL_GEMINI_API_KEYS : option string)
  : list string :=
  match ALL_GEMINI_API_KEYS with
  | Some keys => if truthy keys then parse_gemini_keys keys else []
  | None => []
  end.

(** ** Deriving the identifier of a request *)

(** What [get_user_identifier] reads besides the JSON body: the values of
    the X-Forwarded-For header and the address of the peer. *)
Record request_meta : Type := RequestMeta {
  x_forwarded_for : list string;
  remote_addr : option string
}.

Section Identifier.

(** The values of the JSON body, with Python's [bool()] and [str()] on
    them. *)
Variable V : Type.
Variable py_bool : V -> bool.
Variable py_str : V -> string.

(** [get_user_identifier(data)], for a body that is a JSON object. *)
Definition get_user_identifier (data : gmap string V) (meta : request_meta)
  : option string :=
  let from_request :=
    match x_forwarded_for meta with
    | first :: _ => Some (strip (default EmptyString (head (split_comma first))))
    | [] => remote_addr meta
    end in
  match data !! "fingerprint" with
  | Some fingerprint =>
      if py_bool fingerprint then Some (py_str fingerprint) else from_request
  | None => from_request
  end.

(** The whole route [/api/check-credit]: the body must be a non-empty
    object, then the identifier is derived and must be truthy ([None] and
    the empty string are not). *)
Definition check_credit_route (data : option (gmap string V))
    (meta : request_meta) (now : Z) (s : state) : response * state :=
  match data with
  | None => (BadRequest "Invalid request", s)
  | Some data =>
      if decide (data = ∅) then (BadRequest "Invalid request", s)
      else
        check_credit (default EmptyString (get_user_identifier data meta))
                     now s
  end.

(** The whole route [/api/use-credit]. *)
Definition use_credit_route (data : option (gmap string V))
    (meta : request_meta) (now : Z) (s : state)
  : outcome response * state :=
  match data with
  | None => (Return (BadRequest "Invalid request"), s)
  | Some data =>
      if decide (data = ∅) then (Return (BadRequest "Invalid request"), s)
      else
        use_credit (default EmptyString (get_user_identifier data meta))
                   now s
  end.

End Identifier.

(** ** Prompt enhancement: key rotation and reply parsing *)

(** [s.find(c)] and [s.rfind(c)] for a character: the lowest and the highest
    index of [c], or -1. *)
Fixpoint find_char (c : ascii) (s : string) : Z :=
  match s with
  | EmptyString => -1
  | String a s' =>
      if Ascii.eqb a c then 0
      else let i := find_char c s' in if i =? -1 then -1 else i + 1
  end.

Fixpoint rfind_char (c : ascii) (s : string) : Z :=
  match s with
  | EmptyString => -1
  | String a s' =>
      let i := rfind_char c s' in
      if i =? -1 then (if Ascii.eqb a c then 0 else -1) else i + 1
  end.

(** [s[start:stop]] for bounds between 0 and [len(s)]; empty when
    [stop <= start]. *)
Definition slice (s : string) (start stop : Z) : string :=
  String.substring (Z.to_nat start) (Z.to_nat (stop - start)) s.

(** The text between the first opening and the last closing brace of a
    reply, both included; [None] when the handler raises its own
    JSONDecodeError because a brace is missing. *)
Definition extract_json (text_response : string) : option string :=
  let json_start := find_char "{"%char text_response in
  let json_end := rfind_char "}"%char text_response + 1 in
  if (json_start =? -1) || (json_end =? 0) then None
  else Some (slice text_response json_start json_end).

(** The uploaded file: missing (or falsy), not an image, or opened. *)
Inductive image_upload : Type :=
| NoImage
| CorruptImage
| ImageOpened.

(** What one round with the Gemini client gives: an exception from
    [genai.configure], [generate_content] or [response.text], or the text of
    the reply. *)
Inductive gemini_reply : Type :=
| GeminiError
| GeminiText (text_response : string).

(** How [enhance_animation_prompt] ends. *)
Inductive enhance_result (J : Type) : Type :=
| Enhanced (enhanced_prompts : J)                      (* 200 *)
| EnhanceFailed (http_status : Z) (error : string)     (* 400, 500, 503 *)
| RaisesUnboundLocalError
| RaisesIndexError.
Arguments Enhanced {J} enhanced_prompts.
Arguments EnhanceFailed {J} http_status error.
Arguments RaisesUnboundLocalError {J}.
Arguments RaisesIndexError {J}.

Section Enhance.

(** [json.loads] on the extracted text ([None]: JSONDecodeError), the key
    pool, and the reply that the client gives with a key at an attempt. *)
Variable J : Type.
Variable json_loads_reply : string -> option J.
Variable gemini_keys : list string.
Variable generate_content : string -> nat -> gemini_reply.

(** The retry loop of one request, with [remaining] iterations to go and
    no other request advancing [key_index] between its iterations.  It
    threads the global [key_index], the local [cleaned_response] (unbound
    until its first assignment) and the indices of the keys configured so
    far; it returns the result, the new [key_index] and those indices. *)
Fixpoint retry_loop (remaining attempt key_index : nat)
    (cleaned_response : option string) (configured : list nat)
  : enhance_result J * nat * list nat :=
  match remaining with
  | O =>
      (EnhanceFailed 503
         "The AI enhancement service is temporarily unavailable. Please try again later.",
       key_index, configured)
  | S remaining =>
      match gemini_keys !! key_index with
      | None => (RaisesIndexError, key_index, configured)
      | Some current_key =>
          let current_key_log_index := key_index in
          let key_index := ((key_index + 1) mod length gemini_keys)%nat in
          let configured := (configured ++ [current_key_log_index])%list in
          match generate_content current_key attempt with
          | GeminiError =>
              retry_loop remaining (S attempt) key_index cleaned_response
                         configured
          | GeminiText text_response =>
              match extract_json text_response with
              | None =>
                  match cleaned_response with
                  | None => (RaisesUnboundLocalError, key_index, configured)
                  | Some _ =>
                      retry_loop remaining (S attempt) key_index
                                 cleaned_response configured
                  end
              | Some cleaned =>
                  match json_loads_reply cleaned with
                  | Some enhanced_prompts =>
                      (Enhanced enhanced_prompts, key_index, configured)
                  | None =>
                      retry_loop remaining (S attempt) key_index
                                 (Some cleaned) configured
                  end
              end
          end
      end
  end.

(** [enhance_animation_prompt], from the uploaded image on, with the global
    [key_index] passed in and out. *)
Definition enhance_animation_prompt (image : image_upload) (key_index : nat)
  : enhance_result J * nat * list nat :=
  match gemini_keys with
  | [] =>
      (EnhanceFailed 500 "No Gemini API keys are configured on the server.",
       key_index, [])
  | _ :: _ =>
      match image with
      | NoImage => (EnhanceFailed 400 "Image file is required.", key_index, [])
      | CorruptImage =>
          (EnhanceFailed 400 "Invalid or corrupt image file.", key_index, [])
      | ImageOpened => retry_loop (length gemini_keys) 0 key_index None []
      end
  end.

End Enhance.

(** The indices of the keys in rotation order: [m] of them from [start], in
    a pool of [n]. *)
Definition rotation (n start m : nat) : list nat :=
  (fun i => ((start + i) mod n)%nat) <$> seq 0 m.

(** A pool of three keys and a client for the examples: the second key
    answers with a fenced JSON object, the third with prose, the first
    fails; [sample_json_loads_reply] is [json.loads] on that object, the
    parsed value standing for itself. *)
Definition sample_keys : list string := ["k0"; "k1"; "k2"].

Definition sample_reply_object : string :=
  ("{" ++ double_quote ++ "animation_prompt" ++ double_quote ++ ": "
   ++ double_quote ++ "x" ++ double_quote ++ "}")%string.

Definition sample_generate_content (key : string) (attempt : nat)
  : gemini_reply :=
  if decide (key = "k1")
  then GeminiText ("```json " ++ sample_reply_object ++ " ```")%string
  else if decide (key = "k2") then GeminiText "Sorry, I cannot help."
  else GeminiError.

Definition sample_json_loads_reply (cleaned : string) : option string :=
  if decide (cleaned = sample_reply_object) then Some cleaned
  else None.

(** * Properties *)

(** ** Looking records up *)

Section FindUser.
Implicit Types (l : list usage_record) (u : usage_record) (s : state).

Lemma truthy_nonempty user_id : user_id ≠ EmptyString -> truthy user_id = true.
Proof. by destruct user_id. Qed.

Lemma find_user_Some user_id l i u :
  find_user user_id l = Some (i, u) ->
  l !! i = Some u /\ id u = Some user_id.
Proof. unfold find_user. rewrite list_find_Some. by intros (? & ? & _). Qed.

Lemma find_user_None user_id l :
  find_user user_id l = None <-> (forall u, u ∈ l -> id u ≠ Some user_id).
Proof. unfold find_user. by rewrite list_find_None, Forall_forall. Qed.

(** Rewriting the found record in place keeps it the first match, as
    long as its id stays. *)
Lemma find_user_insert user_id l i u u' :
  find_user user_id l = Some (i, u) ->
  id u' = Some user_id ->
  find_user user_id (<[i := u']> l) = Some (i, u').
Proof.
  unfold find_user. intros Hf Hid.
  apply list_find_Some in Hf as (Hi & _ & Hleast).
  apply list_find_insert_Some. right; left.
  repeat split; eauto using lookup_lt_Some.
Qed.

(** A record appended for an identifier that had none is found last. *)
Lemma find_user_append user_id l u :
  find_user user_id l = None ->
  id u = Some user_id ->
  find_user user_id (l ++ [u]) = Some (length l, u).
Proof.
  unfold find_user. intros Hn Hid.
  rewrite list_find_app_r by done. simpl.
  by rewrite decide_True by done.
Qed.

Lemma store_same i u s :
  usage_data_cache s !! i = Some u -> store i u s = s.
Proof.
  intros Hi. destruct s as [c d up]. unfold store; simpl in *.
  by rewrite list_insert_id.
Qed.

Lemma reset_window_fresh u now : window_expired (reset_window u now) now = false.
Proof.
  unfold window_expired, reset_window, get_week_start, one_week_seconds.
  simpl. apply Z.ltb_ge. lia.
Qed.

End FindUser.

(** ** The result of one call, case by case *)

Section OneCall.
Implicit Types (u : usage_record) (s : state).

Lemma check_credit_found user_id now s i u :
  user_id ≠ EmptyString ->
  find_user user_id (usage_data_cache s) = Some (i, u) ->
  window_expired u now = false ->
  check_credit user_id now s =
    (if Z.max 0 (USAGE_LIMIT - get_count u 0) =? 0
     then CreditStatus 0 true (get_week_start u now + one_week_seconds)
     else CreditStatus (Z.max 0 (USAGE_LIMIT - get_count u 0)) false 0, s).
Proof.
  intros Hne Hf Hw. unfold check_credit.
  rewrite truthy_nonempty, Hf, Hw by done. simpl.
  destruct (Z.eqb_spec (Z.max 0 (USAGE_LIMIT - get_count u 0)) 0) as [->|];
    done.
Qed.

Lemma check_credit_expired user_id now s i u :
  user_id ≠ EmptyString ->
  find_user user_id (usage_data_cache s) = Some (i, u) ->
  window_expired u now = true ->
  check_credit user_id now s =
    (CreditStatus USAGE_LIMIT false 0,
     set_changed (store i (reset_window u now) s)).
Proof.
  intros Hne Hf Hw. unfold check_credit.
  by rewrite truthy_nonempty, Hf, Hw by done.
Qed.

Lemma use_credit_new user_id now s :
  user_id ≠ EmptyString ->
  find_user user_id (usage_data_cache s) = None ->
  use_credit user_id now s =
    (Return (Success (USAGE_LIMIT - 1)),
     set_changed
       (append {| id := Some user_id; count := Some 1;
                  week_start := Some now |} s)).
Proof.
  intros Hne Hf. unfold use_credit. by rewrite truthy_nonempty, Hf by done.
Qed.

Lemma use_credit_expired user_id now s i u :
  user_id ≠ EmptyString ->
  find_user user_id (usage_data_cache s) = Some (i, u) ->
  window_expired u now = true ->
  use_credit user_id now s =
    (Return (Success (USAGE_LIMIT - 1)),
     set_changed
       (store i {| id := id u; count := Some 1; week_start := Some now |} s)).
Proof.
  intros Hne Hf Hw. unfold use_credit.
  rewrite truthy_nonempty, Hf, Hw by done. simpl.
  destruct s as [c d up]. unfold set_changed, store, set_count; simpl.
  by rewrite list_insert_insert_eq.
Qed.

Lemma use_credit_denied user_id now s i u :
  user_id ≠ EmptyString ->
  find_user user_id (usage_data_cache s) = Some (i, u) ->
  window_expired u now = false ->
  USAGE_LIMIT <= get_count u 0 ->
  use_credit user_id now s =
    (Return (LimitReached 0 (get_week_start u now + one_week_seconds)), s).
Proof.
  intros Hne Hf Hw Hc. unfold use_credit.
  rewrite truthy_nonempty, Hf, Hw by done.
  by rewrite (proj2 (Z.leb_le _ _) Hc).
Qed.

Lemma use_credit_granted user_id now s i u c :
  user_id ≠ EmptyString ->
  find_user user_id (usage_data_cache s) = Some (i, u) ->
  window_expired u now = false ->
  count u = Some c ->
  c < USAGE_LIMIT ->
  use_credit user_id now s =
    (Return (Success (USAGE_LIMIT - (c + 1))),
     set_changed (store i (set_count u (c + 1)) s)).
Proof.
  intros Hne Hf Hw Hc Hlt. unfold use_credit.
  rewrite truthy_nonempty, Hf, Hw by done.
  unfold get_count. rewrite Hc. simpl.
  by rewrite (proj2 (Z.leb_gt _ _) Hlt).
Qed.

Lemma use_credit_key_error user_id now s i u :
  user_id ≠ EmptyString ->
  find_user user_id (usage_data_cache s) = Some (i, u) ->
  window_expired u now = false ->
  count u = None ->
  use_credit user_id now s = (Raise KeyError, s).
Proof.
  intros Hne Hf Hw Hc. unfold use_credit.
  rewrite truthy_nonempty, Hf, Hw by done.
  unfold get_count. by rewrite Hc.
Qed.

End OneCall.

(** ** Unknown identifiers *)

(** C9. [check_credit] for an identifier that has no record in the cache
    answers with all [USAGE_LIMIT] = 5 credits, [limit_reached] false and
    [reset_timestamp] 0, and leaves the cache, the dirty flag and the upload
    log as they were; no record is created for the identifier. *)
Theorem check_credit_unknown_identifier user_id now s :
  user_id ≠ EmptyString ->
  find_user user_id (usage_data_cache s) = None ->
  check_credit user_id now s = (CreditStatus 5 false 0, s)
  /\ find_user user_id (usage_data_cache (check_credit user_id now s).2) = None.
Proof.
  intros Hne Hf. unfold check_credit.
  by rewrite truthy_nonempty, Hf by done.
Qed.

Lemma check_credit_unknown_identifier_witness :
  check_credit "u9" 1700000000 (cache_of [u1_record 3 1699990000]) =
    (CreditStatus 5 false 0, cache_of [u1_record 3 1699990000])
  /\ find_user "u9"
       (usage_data_cache
          (check_credit "u9" 1700000000
             (cache_of [u1_record 3 1699990000])).2) = None.
Proof.
  apply check_credit_unknown_identifier; [discriminate | reflexivity].
Defined.

(** ** Denied attempts *)

(** C4. When the record of the identifier has [count >= USAGE_LIMIT] and its
    window has not expired, [use_credit] answers limit_reached with no
    credits left and [reset_timestamp = week_start + 7 days], and the whole
    state is returned as it was: the record, every other record and the
    dirty flag. *)
Theorem use_credit_denied_mutates_nothing user_id now s i u c :
  user_id ≠ EmptyString ->
  find_user user_id (usage_data_cache s) = Some (i, u) ->
  count u = Some c ->
  USAGE_LIMIT <= c ->
  now - one_week_seconds <= get_week_start u 0 ->
  exists reset_timestamp,
    use_credit user_id now s = (Return (LimitReached 0 reset_timestamp), s)
    /\ reset_timestamp = get_week_start u now + 7 * 24 * 3600
    /\ (forall ws, week_start u = Some ws ->
                   reset_timestamp = ws + 7 * 24 * 3600).
Proof.
  intros Hne Hf Hc Hle Hw. eexists. split_and!.
  - apply (use_credit_denied _ _ _ i u); [done | done | | ].
    + by apply Z.ltb_ge.
    + unfold get_count. by rewrite Hc.
  - reflexivity.
  - intros ws Hws. unfold get_week_start. by rewrite Hws.
Qed.

Lemma use_credit_denied_mutates_nothing_witness :
  exists reset_timestamp,
    use_credit "u1" 1700000000
      (cache_of [u2_record 1 1699990000; u1_record 5 1699990000]) =
      (Return (LimitReached 0 reset_timestamp),
       cache_of [u2_record 1 1699990000; u1_record 5 1699990000])
    /\ reset_timestamp =
         get_week_start (u1_record 5 1699990000) 1700000000 + 7 * 24 * 3600
    /\ (forall ws, week_start (u1_record 5 1699990000) = Some ws ->
                   reset_timestamp = ws + 7 * 24 * 3600).
Proof.
  apply (use_credit_denied_mutates_nothing "u1" 1700000000 _ 1%nat _ 5);
    [discriminate | reflexivity | reflexivity | done | done].
Defined.

(** ** The rolling-window reset *)

Section Reset.
Implicit Types (u : usage_record) (s : state).

Lemma window_expired_true u now :
  window_expired u now = true <-> get_week_start u 0 + one_week_seconds < now.
Proof. unfold window_expired. rewrite Z.ltb_lt. lia. Qed.

Lemma window_expired_false u now :
  window_expired u now = false <-> now <= get_week_start u 0 + one_week_seconds.
Proof. unfold window_expired. rewrite Z.ltb_ge. lia. Qed.

Lemma find_user_store user_id s i u u' :
  find_user user_id (usage_data_cache s) = Some (i, u) ->
  id u' = id u ->
  find_user user_id (usage_data_cache (store i u' s)) = Some (i, u').
Proof.
  intros Hf Hid. simpl. eapply find_user_insert; [done |].
  rewrite Hid. by apply find_user_Some in Hf as [_ ?].
Qed.

Lemma store_store i u u' s : store i u' (store i u s) = store i u' s.
Proof. unfold store; simpl. by rewrite list_insert_insert_eq. Qed.

End Reset.

(** The reset does not fire at the very end of the window: at
    [now = week_start + 7 days] the record of "u2" keeps [count = 5] and its
    [week_start], and both handlers report the limit as reached. *)
Lemma reset_rule_boundary_counterexample :
  1000 + 7 * 24 * 3600 >= 1000 + 7 * 24 * 3600
  /\ check_credit "u2" (1000 + 7 * 24 * 3600) (cache_of [u2_record 5 1000]) =
       (CreditStatus 0 true (1000 + 7 * 24 * 3600), cache_of [u2_record 5 1000])
  /\ use_credit "u2" (1000 + 7 * 24 * 3600) (cache_of [u2_record 5 1000]) =
       (Return (LimitReached 0 (1000 + 7 * 24 * 3600)),
        cache_of [u2_record 5 1000]).
Proof. split_and!; [lia | reflexivity | reflexivity]. Qed.

(** C2, amended.  On every access to a record by [check_credit] or
    [use_credit] at a time [now > week_start + 7*24*3600] (a missing
    [week_start] counts as 0), the handler answers as it would on the record
    with [count = 0] and [week_start = now]: [check_credit] reports all 5
    credits and [limit_reached] false, stores the reset record and raises the
    dirty flag; [use_credit] grants the credit and stores [count = 1] with
    [week_start = now].  A record whose window started 8 days ago with
    [count = 5] is an instance. *)
Theorem reset_rule_on_access user_id now s i u :
  user_id ≠ EmptyString ->
  find_user user_id (usage_data_cache s) = Some (i, u) ->
  get_week_start u 0 + 7 * 24 * 3600 < now ->
  let fresh := {| id := Some user_id; count := Some 0; week_start := Some now |} in
  check_credit user_id now s = check_credit user_id now (set_changed (store i fresh s))
  /\ check_credit user_id now s = (CreditStatus 5 false 0, set_changed (store i fresh s))
  /\ find_user user_id (usage_data_cache (check_credit user_id now s).2) = Some (i, fresh)
  /\ use_credit user_id now s = use_credit user_id now (store i fresh s)
  /\ use_credit user_id now s =
       (Return (Success 4), set_changed (store i (set_count fresh 1) s)).
Proof.
  intros Hne Hf Hlt fresh.
  assert (Hexp : window_expired u now = true) by by apply window_expired_true.
  pose proof Hf as [_ Hid]%find_user_Some.
  assert (Hfresh : reset_window u now = fresh).
  { unfold reset_window, fresh. by rewrite Hid. }
  assert (Hff : find_user user_id (usage_data_cache (store i fresh s))
                = Some (i, fresh)).
  { by apply (find_user_store _ _ _ u). }
  assert (Hnow : window_expired fresh now = false).
  { rewrite <- Hfresh. apply reset_window_fresh. }
  assert (Hc : check_credit user_id now s =
               (CreditStatus 5 false 0, set_changed (store i fresh s))).
  { rewrite (check_credit_expired _ _ _ i u) by done. by rewrite Hfresh. }
  assert (Hu : use_credit user_id now s =
               (Return (Success 4), set_changed (store i (set_count fresh 1) s))).
  { rewrite (use_credit_expired _ _ _ i u) by done.
    unfold set_count, fresh; simpl. by rewrite Hid. }
  split_and!.
  - rewrite Hc. symmetry.
    by rewrite (check_credit_found _ _ (set_changed (store i fresh s)) i fresh).
  - done.
  - rewrite Hc. simpl. by apply (find_user_insert _ _ _ u).
  - rewrite Hu. symmetry.
    rewrite (use_credit_granted _ _ (store i fresh s) i fresh 0) by done.
    by rewrite store_store.
  - done.
Qed.

Lemma reset_rule_on_access_witness :
  check_credit "u2" 1700000000 (cache_of [u2_record 5 (1700000000 - 8 * 24 * 3600)]) =
    (CreditStatus 5 false 0,
     set_changed (cache_of [u2_record 0 1700000000]))
  /\ use_credit "u2" 1700000000 (cache_of [u2_record 5 (1700000000 - 8 * 24 * 3600)]) =
    (Return (Success 4), set_changed (cache_of [u2_record 1 1700000000])).
Proof.
  destruct (reset_rule_on_access "u2" 1700000000
              (cache_of [u2_record 5 (1700000000 - 8 * 24 * 3600)])
              0%nat (u2_record 5 (1700000000 - 8 * 24 * 3600)))
    as (_ & Hc & _ & _ & Hu);
    [discriminate | reflexivity | reflexivity | ].
  split; [exact Hc | exact Hu].
Defined.

(** ** The reset timestamp of [check_credit] *)

(** With credits left, [check_credit] reports [reset_timestamp = 0], not
    [week_start + 7 days]: "u1" has used 2 of 5 credits in a window that
    began at 1699990000. *)
Lemma check_credit_reset_timestamp_counterexample :
  find_user "u1" (usage_data_cache (cache_of [u1_record 2 1699990000])) =
    Some (0%nat, u1_record 2 1699990000)
  /\ check_credit "u1" 1700000000 (cache_of [u1_record 2 1699990000]) =
       (CreditStatus 3 false 0, cache_of [u1_record 2 1699990000])
  /\ 0 ≠ 1699990000 + 7 * 24 * 3600.
Proof. split_and!; [reflexivity | reflexivity | lia]. Qed.

(** C3, amended.  For an identifier that has a record, [check_credit]
    reports [reset_timestamp = week_start + 7 days], computed from the
    (possibly just-reset) record, exactly when the limit is reached, that is
    when [credits_remaining = max(0, 5 - count) = 0]; with credits left it
    reports [reset_timestamp = 0].  (A record without [week_start] counts
    from [now].) *)
Theorem check_credit_reset_timestamp user_id now s i u :
  user_id ≠ EmptyString ->
  find_user user_id (usage_data_cache s) = Some (i, u) ->
  exists credits_remaining limit_reached reset_timestamp s' u',
    check_credit user_id now s =
      (CreditStatus credits_remaining limit_reached reset_timestamp, s')
    /\ find_user user_id (usage_data_cache s') = Some (i, u')
    /\ u' = (if window_expired u now then reset_window u now else u)
    /\ credits_remaining = Z.max 0 (5 - get_count u' 0)
    /\ limit_reached = bool_decide (credits_remaining = 0)
    /\ reset_timestamp =
         (if limit_reached then get_week_start u' now + 7 * 24 * 3600 else 0)
    /\ (forall ws, limit_reached = true -> week_start u' = Some ws ->
                   reset_timestamp = ws + 7 * 24 * 3600).
Proof.
  intros Hne Hf. destruct (window_expired u now) eqn:Hw.
  - exists 5, false, 0, (set_changed (store i (reset_window u now) s)),
      (reset_window u now).
    split_and!; try done.
    + by apply (check_credit_expired _ _ _ i u).
    + by apply (find_user_store _ _ _ u).
  - rewrite (check_credit_found _ _ _ i u) by done.
    change USAGE_LIMIT with 5.
    destruct (Z.eqb_spec (Z.max 0 (5 - get_count u 0)) 0) as [Hz | Hz].
    + exists 0, true, (get_week_start u now + one_week_seconds), s, u.
      rewrite Hz. split_and!; try done.
      intros ws _ Hws. unfold get_week_start. by rewrite Hws.
    + exists (Z.max 0 (5 - get_count u 0)), false, 0, s, u.
      rewrite bool_decide_false by done. split_and!; done.
Qed.

Lemma check_credit_reset_timestamp_witness :
  exists credits_remaining limit_reached reset_timestamp s' u',
    check_credit "u1" 1700000000 (cache_of [u1_record 5 1699990000]) =
      (CreditStatus credits_remaining limit_reached reset_timestamp, s')
    /\ find_user "u1" (usage_data_cache s') = Some (0%nat, u')
    /\ u' = (if window_expired (u1_record 5 1699990000) 1700000000
             then reset_window (u1_record 5 1699990000) 1700000000
             else u1_record 5 1699990000)
    /\ credits_remaining = Z.max 0 (5 - get_count u' 0)
    /\ limit_reached = bool_decide (credits_remaining = 0)
    /\ reset_timestamp =
         (if limit_reached then get_week_start u' 1700000000 + 7 * 24 * 3600
          else 0)
    /\ (forall ws, limit_reached = true -> week_start u' = Some ws ->
                   reset_timestamp = ws + 7 * 24 * 3600).
Proof.
  apply (check_credit_reset_timestamp "u1" 1700000000
           (cache_of [u1_record 5 1699990000]) 0%nat (u1_record 5 1699990000));
    [discriminate | reflexivity].
Defined.

(** ** The range of [count] *)

(** A record loaded with a count above the limit keeps it through a denied
    [use_credit], and a negative count stays negative after a granted one. *)
Lemma count_range_counterexample :
  use_credit "u1" 1700000000 (cache_of [u1_record 9 1699990000]) =
    (Return (LimitReached 0 (1699990000 + 7 * 24 * 3600)),
     cache_of [u1_record 9 1699990000])
  /\ ~ count_in_range (u1_record 9 1699990000)
  /\ use_credit "u1" 1700000000 (cache_of [u1_record (-3) 1699990000]) =
    (Return (Success 7), set_changed (cache_of [u1_record (-2) 1699990000]))
  /\ ~ count_in_range (u1_record (-2) 1699990000).
Proof.
  unfold count_in_range, USAGE_LIMIT.
  split_and!; [reflexivity | | reflexivity | ];
    intros (c & [= <-] & ?); lia.
Qed.

(** C7, amended.  After [use_credit] the record of the identifier has an
    integer [count] in [[0, USAGE_LIMIT]] whenever the call created the
    record, or found it with an expired window, or found it with an integer
    count already in that range; every other record is left as it was.
    Whenever a record is accessed at a time exceeding [week_start + 7 days]
    its count is reset to 0 before the quota is evaluated: [check_credit]
    leaves [count = 0] and [use_credit], which then grants one credit,
    leaves [count = 1].  A record found inside its window with any integer
    count of [USAGE_LIMIT] or more is left exactly as it is, and one with
    any integer count below [USAGE_LIMIT] has its count raised by one: a
    count outside the range that was loaded from the remote document is not
    clamped. *)
Theorem count_in_range_after_use_credit user_id now s :
  user_id ≠ EmptyString ->
  ((forall i u, find_user user_id (usage_data_cache s) = Some (i, u) ->
                count_in_range u \/ get_week_start u 0 + 7 * 24 * 3600 < now) ->
   exists i u',
     find_user user_id (usage_data_cache (use_credit user_id now s).2)
       = Some (i, u')
     /\ count_in_range u'
     /\ (forall j, j ≠ i ->
           usage_data_cache (use_credit user_id now s).2 !! j
           = usage_data_cache s !! j))
  /\ (forall i u,
        find_user user_id (usage_data_cache s) = Some (i, u) ->
        get_week_start u 0 + 7 * 24 * 3600 < now ->
        find_user user_id (usage_data_cache (check_credit user_id now s).2)
          = Some (i, {| id := id u; count := Some 0; week_start := Some now |})
        /\ find_user user_id (usage_data_cache (use_credit user_id now s).2)
          = Some (i, {| id := id u; count := Some (0 + 1);
                        week_start := Some now |}))
  /\ (forall i u c,
        find_user user_id (usage_data_cache s) = Some (i, u) ->
        count u = Some c ->
        now <= get_week_start u 0 + 7 * 24 * 3600 ->
        (USAGE_LIMIT <= c -> (use_credit user_id now s).2 = s)
        /\ (c < USAGE_LIMIT ->
            find_user user_id (usage_data_cache (use_credit user_id now s).2)
            = Some (i, {| id := id u; count := Some (c + 1);
                          week_start := week_start u |})
            /\ forall j, j ≠ i ->
                 usage_data_cache (use_credit user_id now s).2 !! j
                 = usage_data_cache s !! j)).
Proof.
  intros Hne. split_and!.
  - intros Hpre.
    destruct (find_user user_id (usage_data_cache s)) as [[i u]|] eqn:Hf.
    + destruct (window_expired u now) eqn:Hw.
      * rewrite (use_credit_expired _ _ _ i u) by done.
        exists i, {| id := id u; count := Some 1; week_start := Some now |}.
        split_and!.
        -- by apply (find_user_store _ _ _ u).
        -- exists 1. unfold USAGE_LIMIT. split; [done | lia].
        -- intros j Hj. simpl. by rewrite list_lookup_insert_ne.
      * destruct (Hpre i u eq_refl) as [(c & Hc & Hr) | Hlt];
          [| apply window_expired_false in Hw;
             unfold one_week_seconds in Hw; lia].
        destruct (decide (c < USAGE_LIMIT)) as [Hlt | Hge].
        -- rewrite (use_credit_granted _ _ _ i u c) by done.
           exists i, (set_count u (c + 1)). split_and!.
           ++ by apply (find_user_store _ _ _ u).
           ++ exists (c + 1). split; [done | lia].
           ++ intros j Hj. simpl. by rewrite list_lookup_insert_ne.
        -- rewrite (use_credit_denied _ _ _ i u); try done.
           ++ exists i, u. split_and!; [done | by exists c | done].
           ++ unfold get_count. rewrite Hc. simpl. lia.
    + rewrite use_credit_new by done.
      exists (length (usage_data_cache s)),
        {| id := Some user_id; count := Some 1; week_start := Some now |}.
      split_and!.
      * by apply find_user_append.
      * exists 1. unfold USAGE_LIMIT. split; [done | lia].
      * intros j Hj. simpl.
        destruct (decide (j < length (usage_data_cache s))%nat).
        -- by rewrite lookup_app_l.
        -- rewrite !lookup_ge_None_2; [done | lia |].
           rewrite length_app. simpl. lia.
  - intros i u Hf Hlt.
    assert (Hw : window_expired u now = true) by by apply window_expired_true.
    rewrite (check_credit_expired _ _ _ i u) by done.
    rewrite (use_credit_expired _ _ _ i u) by done.
    split; by apply (find_user_store _ _ _ u).
  - intros i u c Hf Hc Hin.
    assert (Hw : window_expired u now = false).
    { apply window_expired_false. unfold one_week_seconds. lia. }
    split.
    + intros Hge. rewrite (use_credit_denied _ _ _ i u); try done.
      unfold get_count. by rewrite Hc.
    + intros Hlt. rewrite (use_credit_granted _ _ _ i u c) by done. split.
      * by apply (find_user_store _ _ _ u).
      * intros j Hj. simpl. by rewrite list_lookup_insert_ne.
Qed.

Lemma count_in_range_after_use_credit_witness :
  (exists i u',
      find_user "u1"
        (usage_data_cache
           (use_credit "u1" 1700000000
              (cache_of [u2_record 2 1699990000; u1_record 4 1699990000])).2)
        = Some (i, u')
      /\ count_in_range u'
      /\ (forall j, j ≠ i ->
            usage_data_cache
              (use_credit "u1" 1700000000
                 (cache_of [u2_record 2 1699990000; u1_record 4 1699990000])).2
              !! j
            = usage_data_cache
                (cache_of [u2_record 2 1699990000; u1_record 4 1699990000])
                !! j))
  /\ (use_credit "u1" 1700000000
        (cache_of [u2_record 2 1699990000; u1_record 4 1699990000])).2
     ≠ cache_of [u2_record 2 1699990000; u1_record 4 1699990000].
Proof.
  split; [| discriminate].
  apply (count_in_range_after_use_credit "u1" 1700000000
           (cache_of [u2_record 2 1699990000; u1_record 4 1699990000])).
  - discriminate.
  - intros i u [= <- <-]. left. exists 4. unfold USAGE_LIMIT. split; [done | lia].
Defined.

(** Inside the window a loaded count of -1 is raised to 0 and a loaded
    count of 9 stays 9. *)
Example loaded_counts_not_clamped :
  (use_credit "u1" 1700000000 (cache_of [u1_record (-1) 1699990000])) =
    (Return (Success 5), set_changed (cache_of [u1_record 0 1699990000]))
  /\ (use_credit "u1" 1700000000 (cache_of [u1_record 9 1699990000])).2 =
     cache_of [u1_record 9 1699990000].
Proof. split; reflexivity. Qed.

(** ** The quota over a sequence of calls *)

Section Quota.
Implicit Types (u : usage_record) (s : state) (rs : list (outcome response)).

Lemma window_expired_set_count u c now :
  window_expired (set_count u c) now = window_expired u now.
Proof. done. Qed.

Lemma use_credit_seq_cons user_id now times s :
  use_credit_seq user_id (now :: times) s =
    ((use_credit user_id now s).1
       :: (use_credit_seq user_id times (use_credit user_id now s).2).1,
     (use_credit_seq user_id times (use_credit user_id now s).2).2).
Proof.
  simpl. destruct (use_credit user_id now s) as [r s1]. simpl.
  by destruct (use_credit_seq user_id times s1).
Qed.

Lemma use_credit_seq_length user_id times :
  forall s, length (use_credit_seq user_id times s).1 = length times.
Proof.
  induction times as [|t ts IH]; intros s; [done |].
  rewrite use_credit_seq_cons. simpl. by rewrite IH.
Qed.

(** Calls inside the window of a record whose count is in range: the
    count climbs to the limit and stays there. *)
Lemma use_credit_seq_in_window user_id times :
  forall s i u c,
    user_id ≠ EmptyString ->
    find_user user_id (usage_data_cache s) = Some (i, u) ->
    count u = Some c ->
    0 <= c <= USAGE_LIMIT ->
    Forall (fun t => window_expired u t = false) times ->
    (exists u',
        find_user user_id
          (usage_data_cache (use_credit_seq user_id times s).2) = Some (i, u')
        /\ week_start u' = week_start u
        /\ count u' = Some (Z.min USAGE_LIMIT (c + Z.of_nat (length times))))
    /\ (forall (k : nat) r,
          (use_credit_seq user_id times s).1 !! k = Some r ->
          (c + Z.of_nat k < USAGE_LIMIT ->
           r = Return (Success (USAGE_LIMIT - (c + Z.of_nat k + 1))))
          /\ (USAGE_LIMIT <= c + Z.of_nat k ->
              exists ts, r = Return (LimitReached 0 ts))).
Proof.
  induction times as [|t ts IH]; intros s i u c Hne Hf Hc Hr Hw.
  - split; [| by intros k r [=]].
    exists u. split_and!; [done | done |]. rewrite Hc. simpl. f_equal. lia.
  - apply Forall_cons in Hw as [Ht Hts]. rewrite use_credit_seq_cons.
    destruct (decide (c < USAGE_LIMIT)) as [Hlt | Hge].
    + rewrite (use_credit_granted _ _ _ i u c) by done. simpl.
      destruct (IH (set_changed (store i (set_count u (c + 1)) s)) i
                  (set_count u (c + 1)) (c + 1)) as [(u' & Hf' & Hws & Hc') IHrs];
        [done | by apply (find_user_store _ _ _ u) | done | lia | done |].
      split.
      * exists u'. split_and!; [done | done |]. rewrite Hc'. f_equal. lia.
      * intros [|k] r Hk; simpl in Hk.
        -- injection Hk as <-. split; [intros _; do 3 f_equal; lia | lia].
        -- destruct (IHrs k r Hk) as [Hs Hd]. split.
           ++ intros ?. rewrite Hs by lia. do 3 f_equal. lia.
           ++ intros ?. apply Hd. lia.
    + rewrite (use_credit_denied _ _ _ i u); try done;
        [| unfold get_count; rewrite Hc; simpl; lia].
      simpl.
      destruct (IH s i u c) as [(u' & Hf' & Hws & Hc') IHrs]; try done.
      split.
      * exists u'. split_and!; [done | done |]. rewrite Hc'. f_equal. lia.
      * intros [|k] r Hk; simpl in Hk.
        -- injection Hk as <-. split; [lia | eauto].
        -- destruct (IHrs k r Hk) as [Hs Hd]. split; [lia |].
           intros ?. apply Hd. lia.
Qed.

(** The first call of a run that starts without a record, or with a
    record that has [count = 0], is granted and fixes the window. *)
Lemma use_credit_first user_id t0 s :
  user_id ≠ EmptyString ->
  (forall i u, find_user user_id (usage_data_cache s) = Some (i, u) ->
               count u = Some 0) ->
  exists i u1,
    (use_credit user_id t0 s).1 = Return (Success 4)
    /\ find_user user_id (usage_data_cache (use_credit user_id t0 s).2)
       = Some (i, u1)
    /\ count u1 = Some 1
    /\ get_week_start u1 0 = window_start_at user_id t0 s.
Proof.
  intros Hne H0. unfold window_start_at.
  destruct (find_user user_id (usage_data_cache s)) as [[i u]|] eqn:Hf.
  - destruct (window_expired u t0) eqn:Hw.
    + rewrite (use_credit_expired _ _ _ i u) by done.
      exists i, {| id := id u; count := Some 1; week_start := Some t0 |}.
      split_and!; try done. by apply (find_user_store _ _ _ u).
    + rewrite (use_credit_granted _ _ _ i u 0); try done; [| by apply (H0 i)].
      exists i, (set_count u (0 + 1)).
      split_and!; try done. by apply (find_user_store _ _ _ u).
  - rewrite use_credit_new by done.
    exists (length (usage_data_cache s)),
      {| id := Some user_id; count := Some 1; week_start := Some t0 |}.
    split_and!; try done. by apply find_user_append.
Qed.

Lemma filter_none {A} (P : A -> Prop) `{forall x, Decision (P x)} (l : list A) :
  Forall (fun x => ~ P x) l -> filter P l = [].
Proof.
  induction 1 as [|x l Hx _ IH]; [done |].
  by rewrite filter_cons_False.
Qed.

(** Counting the successes of a run in which every response from the
    sixth on is a denial. *)
Lemma successes_bounded rs :
  (forall (k : nat) r, rs !! k = Some r -> (5 <= k)%nat ->
                       status r ≠ Some "success") ->
  (successes rs <= 5)%nat.
Proof.
  intros Hshape. unfold successes.
  rewrite <- (take_drop 5 rs), filter_app, length_app.
  rewrite (filter_none _ (drop 5 rs)).
  - pose proof (length_filter (fun r => status r = Some "success") (take 5 rs)).
    pose proof (length_take rs 5). simpl. lia.
  - apply Forall_lookup. intros k r Hk. rewrite lookup_drop in Hk.
    apply (Hshape _ _ Hk). lia.
Qed.

Lemma successes_take_le rs k : (successes (take k rs) <= k)%nat.
Proof.
  unfold successes.
  pose proof (length_filter (fun r => status r = Some "success") (take k rs)).
  pose proof (length_take rs k). lia.
Qed.

End Quota.

(** C1.  A run of sequential [use_credit] calls for one identifier, the
    first at [t0] and the others at [times], all inside the accounting window
    that the first call leaves in force, starting from a cache where the
    identifier has no record or a record with [count = 0]: the first five
    responses are "success" with 4, 3, 2, 1, 0 credits remaining and every
    later one is "limit_reached" with [credits_remaining = 0]; so at most
    [USAGE_LIMIT] = 5 responses are successes, and every call after the fifth
    success is denied.  After six calls the responses are five successes and
    one denial, and [check_credit] inside the window then reports
    [credits_remaining = 0] and [limit_reached = true]. *)
Theorem quota_never_exceeded user_id t0 times s :
  user_id ≠ EmptyString ->
  (forall i u, find_user user_id (usage_data_cache s) = Some (i, u) ->
               count u = Some 0) ->
  Forall (fun t => t <= window_start_at user_id t0 s + 7 * 24 * 3600) times ->
  let rs := (use_credit_seq user_id (t0 :: times) s).1 in
  let s' := (use_credit_seq user_id (t0 :: times) s).2 in
  (forall (k : nat) r, rs !! k = Some r ->
     ((k < 5)%nat -> r = Return (Success (4 - Z.of_nat k)))
     /\ ((5 <= k)%nat -> exists ts, r = Return (LimitReached 0 ts)))
  /\ (successes rs <= Z.to_nat USAGE_LIMIT)%nat
  /\ (forall (k : nat) r, rs !! k = Some r ->
        (Z.to_nat USAGE_LIMIT <= successes (take k rs))%nat ->
        status r = Some "limit_reached"
        /\ exists ts, r = Return (LimitReached 0 ts))
  /\ (length times = 5%nat ->
      (exists ts, rs = [Return (Success 4); Return (Success 3);
                        Return (Success 2); Return (Success 1);
                        Return (Success 0); Return (LimitReached 0 ts)])
      /\ (forall t, t <= window_start_at user_id t0 s + 7 * 24 * 3600 ->
            exists ts, check_credit user_id t s' = (CreditStatus 0 true ts, s'))).
Proof.
  intros Hne H0 Hwin rs s'. subst rs s'. rewrite use_credit_seq_cons.
  destruct (use_credit_first user_id t0 s Hne H0)
    as (i & u1 & Hr0 & Hf1 & Hc1 & Hws1).
  set (s1 := (use_credit user_id t0 s).2) in *.
  assert (Hin : forall t, t <= window_start_at user_id t0 s + 7 * 24 * 3600 ->
                          window_expired u1 t = false).
  { intros t Ht. apply window_expired_false. rewrite Hws1.
    unfold one_week_seconds. lia. }
  destruct (use_credit_seq_in_window user_id times s1 i u1 1)
    as [(u' & Hf' & Hws' & Hc') Hrest];
    [done | done | done | unfold USAGE_LIMIT; lia
     | by eapply Forall_impl; [exact Hwin |] |].
  set (rs1 := (use_credit_seq user_id times s1).1) in *.
  set (s2 := (use_credit_seq user_id times s1).2) in *.
  rewrite Hr0. simpl.
  assert (Hshape : forall (k : nat) r,
             (Return (Success 4) :: rs1) !! k = Some r ->
             ((k < 5)%nat -> r = Return (Success (4 - Z.of_nat k)))
             /\ ((5 <= k)%nat -> exists ts, r = Return (LimitReached 0 ts))).
  { intros [|k] r Hk; simpl in Hk.
    - injection Hk as <-. split; [done | lia].
    - destruct (Hrest k r Hk) as [Hs Hd]. unfold USAGE_LIMIT in *. split.
      + intros ?. rewrite Hs by lia. do 2 f_equal. lia.
      + intros ?. apply Hd. lia. }
  split_and!.
  - exact Hshape.
  - apply successes_bounded. intros k r Hk Hge.
    destruct (Hshape k r Hk) as [_ [ts ->]]; done.
  - intros k r Hk Hge.
    pose proof (successes_take_le (Return (Success 4) :: rs1) k) as Hle.
    destruct (Hshape k r Hk) as [_ [ts ->]]; [| by eauto].
    change (Z.to_nat USAGE_LIMIT) with 5%nat in Hge. lia.
  - intros Hlen. split.
    + assert (Hl : length rs1 = 5%nat).
      { unfold rs1. by rewrite use_credit_seq_length. }
      destruct rs1 as [|r1 [|r2 [|r3 [|r4 [|r5 [|r6 rs1]]]]]]; try done.
      pose proof (proj1 (Hshape 1%nat r1 eq_refl) ltac:(lia)) as E1.
      pose proof (proj1 (Hshape 2%nat r2 eq_refl) ltac:(lia)) as E2.
      pose proof (proj1 (Hshape 3%nat r3 eq_refl) ltac:(lia)) as E3.
      pose proof (proj1 (Hshape 4%nat r4 eq_refl) ltac:(lia)) as E4.
      destruct (proj2 (Hshape 5%nat r5 eq_refl) ltac:(lia)) as [ts E5].
      exists ts. by rewrite E1, E2, E3, E4, E5.
    + intros t Ht. eexists.
      rewrite (check_credit_found _ _ _ i u') by
        (try done; rewrite <- (Hin t Ht); unfold window_expired, get_week_start;
         by rewrite Hws').
      unfold get_count. rewrite Hc', Hlen. reflexivity.
Qed.

Lemma quota_never_exceeded_witness :
  (exists ts,
      (use_credit_seq "u1" [100; 101; 102; 103; 104; 105] startup).1 =
        [Return (Success 4); Return (Success 3); Return (Success 2);
         Return (Success 1); Return (Success 0); Return (LimitReached 0 ts)])
  /\ (forall t, t <= window_start_at "u1" 100 startup + 7 * 24 * 3600 ->
        exists ts,
          check_credit "u1" t
            (use_credit_seq "u1" [100; 101; 102; 103; 104; 105] startup).2 =
          (CreditStatus 0 true ts,
           (use_credit_seq "u1" [100; 101; 102; 103; 104; 105] startup).2)).
Proof.
  apply (quota_never_exceeded "u1" 100 [101; 102; 103; 104; 105] startup).
  - discriminate.
  - intros i u Hf. vm_compute in Hf. discriminate Hf.
  - repeat constructor; vm_compute; discriminate.
  - reflexivity.
Defined.

(** The scenario of the specification, evaluated: six calls by "u1" on an
    empty cache, then [check_credit]. *)
Example six_calls_u1 :
  (use_credit_seq "u1" [100; 101; 102; 103; 104; 105] startup).1 =
    [Return (Success 4); Return (Success 3); Return (Success 2);
     Return (Success 1); Return (Success 0);
     Return (LimitReached 0 (100 + 7 * 24 * 3600))]
  /\ (check_credit "u1" 106
        (use_credit_seq "u1" [100; 101; 102; 103; 104; 105] startup).2).1 =
     CreditStatus 0 true (100 + 7 * 24 * 3600).
Proof. split; reflexivity. Qed.

(** ** What a handler does to the flag and to the upload log *)

Section Handlers.
Implicit Types (u : usage_record) (s : state) (q : request).

Lemma check_credit_cases user_id now s :
  (check_credit user_id now s).2 = s
  \/ exists i u, (check_credit user_id now s).2 = set_changed (store i u s).
Proof.
  destruct user_id as [|a user_id]; [by left |].
  destruct (find_user (String a user_id) (usage_data_cache s))
    as [[i u]|] eqn:Hf.
  - destruct (window_expired u now) eqn:Hw.
    + right. exists i, (reset_window u now).
      by rewrite (check_credit_expired _ _ _ i u).
    + left. by rewrite (check_credit_found _ _ _ i u).
  - left. unfold check_credit. simpl. by rewrite Hf.
Qed.

Lemma use_credit_cases user_id now s :
  (use_credit user_id now s).2 = s
  \/ (exists i u, (use_credit user_id now s).2 = set_changed (store i u s))
  \/ (exists u, (use_credit user_id now s).2 = set_changed (append u s)).
Proof.
  destruct user_id as [|a user_id]; [by left |].
  destruct (find_user (String a user_id) (usage_data_cache s))
    as [[i u]|] eqn:Hf.
  - destruct (window_expired u now) eqn:Hw.
    + right; left. eexists _, _. by rewrite (use_credit_expired _ _ _ i u).
    + destruct (decide (USAGE_LIMIT <= get_count u 0)) as [Hge | Hlt].
      * left. by rewrite (use_credit_denied _ _ _ i u).
      * destruct (count u) as [c|] eqn:Hc.
        -- right; left. eexists _, _.
           rewrite (use_credit_granted _ _ _ i u c); try done.
           unfold get_count in Hlt. rewrite Hc in Hlt. simpl in Hlt. lia.
        -- left. by rewrite (use_credit_key_error _ _ _ i u).
  - right; right. eexists. by rewrite use_credit_new.
Qed.

(** Every mutation of the cache by a handler raises the flag. *)
Lemma handle_marks_changes q s :
  handle q s = s \/ data_changed (handle q s) = true.
Proof.
  destruct q as [user_id now | user_id now]; simpl.
  - destruct (check_credit_cases user_id now s) as [-> | (i & u & ->)]; auto.
  - destruct (use_credit_cases user_id now s)
      as [-> | [(i & u & ->) | (u & ->)]]; auto.
Qed.

Lemma handle_uploaded q s : uploaded (handle q s) = uploaded s.
Proof.
  destruct q as [user_id now | user_id now]; simpl.
  - by destruct (check_credit_cases user_id now s) as [-> | (i & u & ->)].
  - by destruct (use_credit_cases user_id now s)
      as [-> | [(i & u & ->) | (u & ->)]].
Qed.

Lemma handle_keeps_changed q s :
  data_changed s = true -> data_changed (handle q s) = true.
Proof. intros H. by destruct (handle_marks_changes q s) as [-> | ?]. Qed.

Lemma serve_keeps_changed qs :
  forall s, data_changed s = true -> data_changed (serve qs s) = true.
Proof.
  induction qs as [|q qs IH]; intros s H; [done |].
  simpl. by apply IH, handle_keeps_changed.
Qed.

Lemma serve_uploaded qs : forall s, uploaded (serve qs s) = uploaded s.
Proof.
  induction qs as [|q qs IH]; intros s; [done |].
  simpl. by rewrite IH, handle_uploaded.
Qed.

End Handlers.

(** ** Publish cycles *)

Section Publish.
Implicit Types (s : state) (o : publish_outcome).

Lemma persist_runs api o s :
  is_Some api ->
  data_changed s = true ->
  persist_data_to_hub api o s =
    publish o (usage_data_cache s) (clear_changed s).
Proof.
  intros Ha Hd. unfold persist_data_to_hub.
  by rewrite Hd, bool_decide_true.
Qed.

Lemma persist_skips api o s :
  data_changed s = false \/ api = None ->
  persist_data_to_hub api o s = ([], s).
Proof.
  intros [Hd | ->]; unfold persist_data_to_hub.
  - by rewrite Hd.
  - rewrite bool_decide_false; [by rewrite orb_true_r |].
    by intros [? [=]].
Qed.

End Publish.

(** C5.  A publish cycle whose upload (or any earlier step of the try block)
    raises ends with the dirty flag set, the cache and the remote document
    as they were.  Whatever requests are served in between, the next cycle
    therefore runs, and when it succeeds the document it writes and uploads
    is the cache as it is at that time, not the snapshot of the failed
    cycle; it then leaves the flag clear. *)
Theorem failed_publish_is_retried api o s qs :
  is_Some api ->
  data_changed s = true ->
  o ≠ UploadSucceeds ->
  let s1 := (persist_data_to_hub api o s).2 in
  let s2 := serve qs s1 in
  let retry := persist_data_to_hub api UploadSucceeds s2 in
  (o = UploadFails ->
   UploadCalled (usage_data_cache s) ∈ (persist_data_to_hub api o s).1)
  /\ data_changed s1 = true
  /\ usage_data_cache s1 = usage_data_cache s
  /\ uploaded s1 = uploaded s
  /\ retry.1 = [TempFileWritten (usage_data_cache s2);
                UploadCalled (usage_data_cache s2); TempFileRemoved]
  /\ uploaded retry.2 = usage_data_cache s2 :: uploaded s
  /\ usage_data_cache retry.2 = usage_data_cache s2
  /\ data_changed retry.2 = false.
Proof.
  intros Ha Hd Ho s1 s2 retry.
  assert (H1 : data_changed s1 = true /\ usage_data_cache s1 = usage_data_cache s
               /\ uploaded s1 = uploaded s).
  { unfold s1. rewrite persist_runs by done. by destruct o. }
  destruct H1 as (Hd1 & Hc1 & Hu1).
  assert (Hd2 : data_changed s2 = true) by by apply serve_keeps_changed.
  assert (Hu2 : uploaded s2 = uploaded s).
  { unfold s2. by rewrite serve_uploaded. }
  unfold retry. rewrite (persist_runs _ _ s2) by done. simpl.
  split_and!; try done.
  - intros ->. rewrite persist_runs by done. simpl. set_solver.
  - by rewrite Hu2.
Qed.

Lemma failed_publish_is_retried_witness :
  uploaded
    (persist_data_to_hub (Some (MkHfApi "hf_token")) UploadSucceeds
       (serve [UseCredit "u2" 200]
          (persist_data_to_hub (Some (MkHfApi "hf_token")) UploadFails
             (set_changed (cache_of [u1_record 1 100]))).2)).2
  = [[u1_record 1 100; u2_record 1 200]].
Proof.
  pose proof (failed_publish_is_retried (Some (MkHfApi "hf_token")) UploadFails
                (set_changed (cache_of [u1_record 1 100]))
                [UseCredit "u2" 200]) as H.
  simpl in H.
  destruct H as (_ & _ & _ & _ & _ & Hup & _);
    [by eexists | reflexivity | discriminate |].
  exact Hup.
Defined.

(** ** Without a remote-store client *)

(** C10.  When [api] is None (no HF_TOKEN, or an empty one), a publish cycle
    does nothing at all, whatever would have happened to an upload: no file
    is written, no upload is called, and the state (cache, dirty flag,
    upload log) is returned as it is.  The same holds for any number of
    wake-ups of the background persister, so a set flag stays set. *)
Theorem persist_without_api_is_noop o os s :
  init_api None = None
  /\ init_api (Some EmptyString) = None
  /\ persist_data_to_hub None o s = ([], s)
  /\ background_persister None os s = ([], s)
  /\ data_changed (background_persister None os s).2 = data_changed s.
Proof.
  assert (H : background_persister None os s = ([], s)).
  { induction os as [|o' os IH]; [done |].
    simpl. rewrite persist_skips by auto. by rewrite IH. }
  split_and!; [done | done | by apply persist_skips; auto | done |].
  by rewrite H.
Qed.

(** ** The dirty flag across interleaved executions *)

Section Interleaving.
Implicit Types (s : state) (ph : phase) (c : state * phase).

(** One uninterrupted publish cycle is a run of the step relation. *)
Lemma persist_data_to_hub_steps api o s :
  rtc (step api) (s, Idle) ((persist_data_to_hub api o s).2, Idle).
Proof.
  destruct (data_changed s) eqn:Hd; [| by rewrite persist_skips by auto].
  destruct api as [a|]; [| by rewrite persist_skips by auto].
  rewrite persist_runs by done.
  eapply rtc_l; [by apply step_snapshot |].
  destruct o; simpl.
  - apply rtc_once, step_dump_fails.
  - apply rtc_once, step_dump_fails.
  - eapply rtc_l; [apply step_dump |]. apply rtc_once, step_upload_fails.
  - eapply rtc_l; [apply step_dump |]. simpl. rewrite firstn_all.
    apply rtc_once, (step_upload _ (clear_changed s)).
Qed.

Lemma step_preserves_synced api init c c' :
  step api c c' -> synced init c -> synced init c'.
Proof.
  unfold synced.
  destruct 1 as [q s ph | s Hd Ha | s n | s n | s doc | s doc]; simpl;
    intros Hs Hd'; try done.
  - destruct (handle_marks_changes q s) as [Heq | Ht]; [| congruence].
    rewrite Heq in *. by apply Hs.
  - rewrite (Hs Hd'). by rewrite firstn_all.
  - unfold last_persisted. simpl. symmetry. by apply Hs.
Qed.

Lemma reachable_synced api init c c' :
  rtc (step api) c c' -> synced init c -> synced init c'.
Proof. induction 1; eauto using step_preserves_synced. Qed.

(** The only step that takes the flag down is the snapshot. *)
Lemma step_clears_only_at_snapshot api s ph s' ph' :
  step api (s, ph) (s', ph') ->
  data_changed s = true ->
  data_changed s' = true
  \/ (ph = Idle /\ ph' = Snapshotted (length (usage_data_cache s))).
Proof.
  inversion 1; subst; intros Hd; auto.
  left. by apply handle_keeps_changed.
Qed.

(** A cycle that ends without a commit ends with the flag set. *)
Lemma step_failure_rearms api s ph s' :
  step api (s, ph) (s', Idle) ->
  ph ≠ Idle ->
  uploaded s' = uploaded s ->
  data_changed s' = true.
Proof.
  inversion 1; subst; intros Hph Hup; try done.
  simpl in Hup. exfalso.
  apply (f_equal length) in Hup. simpl in Hup. lia.
Qed.

(** The state that [load_initial_data] leaves at startup agrees with the
    document it read. *)
Lemma startup_synced json_loads api d :
  let s0 := (load_initial_data json_loads api d startup).2 in
  synced (usage_data_cache s0) (s0, Idle).
Proof.
  intros s0 _. simpl.
  assert (Hup : uploaded s0 = []); [| unfold last_persisted; by rewrite Hup].
  unfold s0. destruct api as [a|]; [| done]. simpl.
  destruct d as [e | content]; simpl; [by destruct e |].
  destruct (truthy content); [| done].
  by destruct (json_loads content).
Qed.

End Interleaving.




(** ** Startup load *)

(** C8.  [load_initial_data] returns normally whatever the download does.
    With a client, and whatever the cache held before, it leaves the cache
    empty when the download raises (the file or the repository is absent,
    or any other failure), when the document is the empty string and when
    the document does not parse; a non-empty document that parses makes the
    cache the parsed list of records.  Without a client nothing is fetched
    and the state stays as it is, so on the startup state, where the cache
    is empty, each of those failures leaves the cache empty with or without
    a client.  The load never touches the dirty flag. *)
Theorem load_initial_data_never_raises json_loads api d s :
  (load_initial_data json_loads api d s).1 = Return tt
  /\ (forall a e,
        usage_data_cache
          (load_initial_data json_loads (Some a) (DownloadRaises e) s).2 = [])
  /\ (forall a,
        usage_data_cache
          (load_initial_data json_loads (Some a) (Downloaded EmptyString) s).2
        = [])
  /\ (forall a content,
        json_loads content = None ->
        usage_data_cache
          (load_initial_data json_loads (Some a) (Downloaded content) s).2 = [])
  /\ (forall a content records,
        content ≠ EmptyString ->
        json_loads content = Some records ->
        usage_data_cache
          (load_initial_data json_loads (Some a) (Downloaded content) s).2
        = records)
  /\ (api = None -> (load_initial_data json_loads api d s).2 = s)
  /\ (forall api' e,
        usage_data_cache
          (load_initial_data json_loads api' (DownloadRaises e) startup).2 = [])
  /\ (forall api',
        usage_data_cache
          (load_initial_data json_loads api' (Downloaded EmptyString) startup).2
        = [])
  /\ (forall api' content,
        json_loads content = None ->
        usage_data_cache
          (load_initial_data json_loads api' (Downloaded content) startup).2
        = [])
  /\ data_changed (load_initial_data json_loads api d s).2 = data_changed s.
Proof.
  assert (Hraise : forall a e s',
             usage_data_cache
               (load_initial_data json_loads (Some a) (DownloadRaises e) s').2
             = []).
  { intros a e s'. by destruct e. }
  assert (Hbad : forall a content s',
             json_loads content = None ->
             usage_data_cache
               (load_initial_data json_loads (Some a) (Downloaded content) s').2
             = []).
  { intros a content s' Hp. simpl.
    destruct (truthy content); [| done]. by rewrite Hp. }
  split_and!.
  - destruct api as [a|]; [| done]. simpl.
    destruct d as [e | content]; simpl.
    + by destruct e.
    + destruct (truthy content); [| done].
      by destruct (json_loads content).
  - intros a e. apply Hraise.
  - done.
  - intros a content. apply Hbad.
  - intros a content records Hne Hp. simpl.
    by rewrite truthy_nonempty, Hp by done.
  - by intros ->.
  - intros [a|] e; [apply Hraise | done].
  - by intros [a|].
  - intros [a|] content Hp; [by apply Hbad | done].
  - destruct api as [a|]; [| done]. simpl.
    destruct d as [e | content]; simpl; [by destruct e |].
    destruct (truthy content); [| done].
    by destruct (json_loads content).
Qed.

Lemma load_initial_data_never_raises_witness :
  usage_data_cache
    (load_initial_data sample_json_loads (Some (MkHfApi "hf_token"))
       (Downloaded sample_document) (cache_of [u2_record 1 100])).2
  = [u1_record 3 1699990000]
  /\ usage_data_cache
       (load_initial_data sample_json_loads (Some (MkHfApi "hf_token"))
          (Downloaded "{not json") (cache_of [u2_record 1 100])).2
     = []
  /\ usage_data_cache
       (load_initial_data sample_json_loads (Some (MkHfApi "hf_token"))
          (DownloadRaises EntryNotFoundError) (cache_of [u2_record 1 100])).2
     = [].
Proof.
  destruct (load_initial_data_never_raises sample_json_loads
              (Some (MkHfApi "hf_token")) (Downloaded "[]")
              (cache_of [u2_record 1 100]))
    as (_ & Hraise & _ & Hbad & Hgood & _).
  split_and!.
  - apply Hgood; [by vm_compute | reflexivity].
  - apply Hbad. reflexivity.
  - apply Hraise.
Defined.


(** * Further properties of the handlers *)

Section HandlerShape.
Implicit Types (u : usage_record) (s : state) (q : request).

(** What a handler does to the cache: nothing, or it rewrites the record of
    the identifier keeping its id and not moving [week_start] back, or it
    appends a first record for the identifier. *)
Lemma handle_shape q s :
  handle q s = s
  \/ (exists i u u',
        find_user (request_user q) (usage_data_cache s) = Some (i, u)
        /\ handle q s = set_changed (store i u' s)
        /\ id u' = id u
        /\ get_week_start u 0 <= get_week_start u' 0)
  \/ (find_user (request_user q) (usage_data_cache s) = None
      /\ request_user q ≠ EmptyString
      /\ handle q s =
           set_changed
             (append {| id := Some (request_user q); count := Some 1;
                        week_start := Some (request_time q) |} s)).
Proof.
  assert (Hexp : forall u now, window_expired u now = true ->
                               get_week_start u 0 <= now).
  { intros u now H%window_expired_true. unfold one_week_seconds in H. lia. }
  destruct q as [user_id now | user_id now]; simpl;
    (destruct user_id as [|a user_id]; [by left |]);
    destruct (find_user (String a user_id) (usage_data_cache s))
      as [[i u]|] eqn:Hf.
  - destruct (window_expired u now) eqn:Hw.
    + right; left. exists i, u, (reset_window u now).
      rewrite (check_credit_expired _ _ _ i u) by done.
      split_and!; try done. by apply Hexp.
    + left. by rewrite (check_credit_found _ _ _ i u).
  - left. unfold check_credit. simpl. by rewrite Hf.
  - destruct (window_expired u now) eqn:Hw.
    + right; left.
      exists i, u, {| id := id u; count := Some 1; week_start := Some now |}.
      rewrite (use_credit_expired _ _ _ i u) by done.
      split_and!; try done. by apply Hexp.
    + destruct (decide (USAGE_LIMIT <= get_count u 0)) as [Hge | Hlt].
      * left. by rewrite (use_credit_denied _ _ _ i u).
      * destruct (count u) as [c|] eqn:Hc.
        -- right; left. exists i, u, (set_count u (c + 1)).
           rewrite (use_credit_granted _ _ _ i u c); try done.
           unfold get_count in Hlt. rewrite Hc in Hlt. simpl in Hlt. lia.
        -- left. by rewrite (use_credit_key_error _ _ _ i u).
  - right; right. by rewrite use_credit_new.
Qed.

Lemma serve_cons q qs s : serve (q :: qs) s = serve qs (handle q s).
Proof. done. Qed.

Lemma handle_lookup q s j u :
  usage_data_cache s !! j = Some u ->
  exists u',
    usage_data_cache (handle q s) !! j = Some u'
    /\ id u' = id u
    /\ get_week_start u 0 <= get_week_start u' 0.
Proof.
  intros Hj.
  destruct (handle_shape q s)
    as [-> | [(i & u0 & u' & Hf & -> & Hid & Hws) | (Hf & _ & ->)]].
  - by exists u.
  - apply find_user_Some in Hf as [Hi _]. simpl.
    destruct (decide (i = j)) as [-> | Hne].
    + exists u'. rewrite list_lookup_insert_eq by by eapply lookup_lt_Some.
      by simplify_eq.
    + exists u. by rewrite list_lookup_insert_ne.
  - exists u. simpl. split; [| done]. by apply lookup_app_l_Some.
Qed.

Lemma handle_length q s :
  (length (usage_data_cache s) <= length (usage_data_cache (handle q s))
   <= S (length (usage_data_cache s)))%nat.
Proof.
  destruct (handle_shape q s)
    as [-> | [(i & u0 & u' & Hf & -> & Hid & Hws) | (Hf & _ & ->)]]; simpl.
  - lia.
  - rewrite length_insert. lia.
  - rewrite length_app. simpl. lia.
Qed.

Lemma ids_insert (l : list usage_record) i u u' :
  l !! i = Some u -> id u' = id u -> ids (<[i := u']> l) = ids l.
Proof.
  unfold ids. revert i. induction l as [|x l IH]; intros [|i] Hi Hid;
    simplify_eq/=; [by rewrite Hid |].
  by rewrite (IH i).
Qed.

Lemma find_user_None_ids user_id (l : list usage_record) :
  find_user user_id l = None -> user_id ∉ ids l.
Proof.
  rewrite find_user_None. unfold ids. intros Hn (u & Hu & Hid)%list_elem_of_omap.
  by apply (Hn u).
Qed.

Lemma handle_ids_NoDup q s :
  NoDup (ids (usage_data_cache s)) -> NoDup (ids (usage_data_cache (handle q s))).
Proof.
  intros Hnd.
  destruct (handle_shape q s)
    as [-> | [(i & u0 & u' & Hf & -> & Hid & Hws) | (Hf & _ & ->)]]; simpl.
  - done.
  - apply find_user_Some in Hf as [Hi _]. by rewrite (ids_insert _ _ u0).
  - unfold ids in *. rewrite omap_app. simpl. apply NoDup_app.
    split_and!; [done | | apply NoDup_singleton].
    intros x Hx ->%list_elem_of_singleton.
    by apply (find_user_None_ids _ _ Hf).
Qed.

(** Rewriting a record that does not match, by one that does not match
    either, does not change what a lookup finds. *)
Lemma list_find_insert_other {A} (P : A -> Prop) `{forall x, Decision (P x)}
    (l : list A) i x y :
  l !! i = Some x -> ~ P x -> ~ P y ->
  list_find P (<[i := y]> l) = list_find P l.
Proof.
  revert i. induction l as [|z l IH]; intros [|i] Hi Hx Hy; simplify_eq/=.
  - by rewrite !decide_False.
  - by rewrite (IH i).
Qed.

Lemma handle_find_other q s user_id :
  request_user q ≠ user_id ->
  find_user user_id (usage_data_cache (handle q s))
  = find_user user_id (usage_data_cache s).
Proof.
  intros Hne.
  destruct (handle_shape q s)
    as [-> | [(i & u0 & u' & Hf & -> & Hid & Hws) | (Hf & _ & ->)]]; simpl.
  - done.
  - apply find_user_Some in Hf as [Hi Hid0]. unfold find_user.
    apply (list_find_insert_other _ _ _ u0); [done | |]; unfold has_id;
      congruence.
  - unfold find_user.
    destruct (list_find (has_id user_id) (usage_data_cache s))
      as [[j z]|] eqn:Hl.
    + by apply list_find_app_l.
    + rewrite list_find_app_r by done. simpl.
      rewrite decide_False; [done |]. unfold has_id; simpl. congruence.
Qed.

(** The response of a handler depends on the cache only through the record
    it finds for the identifier. *)
Lemma check_credit_response_find user_id now s1 s2 :
  find_user user_id (usage_data_cache s1) = find_user user_id (usage_data_cache s2) ->
  (check_credit user_id now s1).1 = (check_credit user_id now s2).1.
Proof.
  intros Hf. unfold check_credit. rewrite Hf.
  destruct (negb (truthy user_id)); [done |].
  destruct (find_user user_id (usage_data_cache s2)) as [[i u]|]; [| done].
  destruct (window_expired u now); simpl.
  - by destruct (Z.max 0 (USAGE_LIMIT - get_count (reset_window u now) 0) =? 0).
  - by destruct (Z.max 0 (USAGE_LIMIT - get_count u 0) =? 0).
Qed.

Lemma use_credit_response_find user_id now s1 s2 :
  find_user user_id (usage_data_cache s1) = find_user user_id (usage_data_cache s2) ->
  (use_credit user_id now s1).1 = (use_credit user_id now s2).1.
Proof.
  intros Hf. unfold use_credit. rewrite Hf.
  destruct (negb (truthy user_id)); [done |].
  destruct (find_user user_id (usage_data_cache s2)) as [[i u]|]; [| done].
  destruct (window_expired u now); simpl.
  - done.
  - destruct (USAGE_LIMIT <=? get_count u 0); [done |].
    by destruct (count u).
Qed.

End HandlerShape.

Section ServeLemmas.
Implicit Types (u : usage_record) (s : state) (q : request).

Lemma serve_lookup qs :
  forall s j u,
    usage_data_cache s !! j = Some u ->
    exists u',
      usage_data_cache (serve qs s) !! j = Some u'
      /\ id u' = id u
      /\ get_week_start u 0 <= get_week_start u' 0.
Proof.
  induction qs as [|q qs IH]; intros s j u Hj; [by exists u |].
  rewrite serve_cons.
  destruct (handle_lookup q s j u Hj) as (u1 & Hj1 & Hid1 & Hws1).
  destruct (IH (handle q s) j u1 Hj1) as (u' & Hj' & Hid' & Hws').
  exists u'. split_and!; [done | congruence | lia].
Qed.

Lemma serve_length qs :
  forall s,
    (length (usage_data_cache s) <= length (usage_data_cache (serve qs s))
     <= length (usage_data_cache s) + length qs)%nat.
Proof.
  induction qs as [|q qs IH]; intros s; [simpl; lia |].
  rewrite serve_cons. pose proof (handle_length q s). pose proof (IH (handle q s)).
  simpl. lia.
Qed.

End ServeLemmas.

(** X1.  Serving requests never removes or reorders records: a record that
    is in the cache stays at its position with its id, whatever requests
    follow, and each request adds at most one record. *)
Theorem serve_keeps_records qs s j u :
  usage_data_cache s !! j = Some u ->
  (exists u', usage_data_cache (serve qs s) !! j = Some u' /\ id u' = id u)
  /\ (length (usage_data_cache s) <= length (usage_data_cache (serve qs s))
      <= length (usage_data_cache s) + length qs)%nat.
Proof.
  intros Hj. split; [| apply serve_length].
  destruct (serve_lookup qs s j u Hj) as (u' & ? & ? & _). by exists u'.
Qed.

Lemma serve_keeps_records_witness :
  (exists u',
      usage_data_cache
        (serve [UseCredit "u2" 200; CheckCredit "u1" 900000; UseCredit "u1" 900001]
           (cache_of [u1_record 5 100])) !! 0%nat = Some u'
      /\ id u' = id (u1_record 5 100))
  /\ (length (usage_data_cache (cache_of [u1_record 5 100]))
      <= length
           (usage_data_cache
              (serve [UseCredit "u2" 200; CheckCredit "u1" 900000;
                      UseCredit "u1" 900001] (cache_of [u1_record 5 100])))
      <= length (usage_data_cache (cache_of [u1_record 5 100]))
         + length [UseCredit "u2" 200; CheckCredit "u1" 900000;
                   UseCredit "u1" 900001])%nat.
Proof.
  apply (serve_keeps_records
           [UseCredit "u2" 200; CheckCredit "u1" 900000; UseCredit "u1" 900001]
           (cache_of [u1_record 5 100]) 0%nat (u1_record 5 100)).
  reflexivity.
Defined.

(** X2.  The start of a record's window never moves back, whatever the
    clock readings of the requests are: a reset only fires when [now] is
    more than a week past the stored [week_start] (0 when missing). *)
Theorem week_start_never_moves_back qs s j u :
  usage_data_cache s !! j = Some u ->
  exists u',
    usage_data_cache (serve qs s) !! j = Some u'
    /\ get_week_start u 0 <= get_week_start u' 0.
Proof.
  intros Hj. destruct (serve_lookup qs s j u Hj) as (u' & ? & _ & ?).
  by exists u'.
Qed.

Lemma week_start_never_moves_back_witness :
  exists u',
    usage_data_cache
      (serve [CheckCredit "u1" 900000; UseCredit "u1" 50; CheckCredit "u1" 60]
         (cache_of [u1_record 5 100])) !! 0%nat = Some u'
    /\ get_week_start (u1_record 5 100) 0 <= get_week_start u' 0.
Proof.
  apply (week_start_never_moves_back
           [CheckCredit "u1" 900000; UseCredit "u1" 50; CheckCredit "u1" 60]
           (cache_of [u1_record 5 100]) 0%nat (u1_record 5 100)).
  reflexivity.
Defined.

(** X3.  At most one record per identifier: if no identifier has two
    records in the cache, none has after any sequence of requests, because
    [use_credit] appends a record only when it found none. *)
Theorem serve_keeps_ids_unique qs s :
  NoDup (ids (usage_data_cache s)) ->
  NoDup (ids (usage_data_cache (serve qs s))).
Proof.
  revert s. induction qs as [|q qs IH]; intros s Hnd; [done |].
  rewrite serve_cons. by apply IH, handle_ids_NoDup.
Qed.

Lemma serve_keeps_ids_unique_witness :
  NoDup (ids (usage_data_cache
                (serve [UseCredit "u2" 200; UseCredit "u1" 201; UseCredit "u2" 202]
                   (cache_of [u1_record 5 100])))).
Proof.
  apply (serve_keeps_ids_unique
           [UseCredit "u2" 200; UseCredit "u1" 201; UseCredit "u2" 202]
           (cache_of [u1_record 5 100])).
  apply NoDup_singleton.
Defined.

(** X4.  Requests of other identifiers do not touch the quota of an
    identifier: the record found for it, and what [check_credit] and
    [use_credit] answer for it, are the same before and after them. *)
Theorem other_identifiers_unaffected qs s user_id now :
  Forall (fun q => request_user q ≠ user_id) qs ->
  find_user user_id (usage_data_cache (serve qs s))
  = find_user user_id (usage_data_cache s)
  /\ (check_credit user_id now (serve qs s)).1 = (check_credit user_id now s).1
  /\ (use_credit user_id now (serve qs s)).1 = (use_credit user_id now s).1.
Proof.
  intros Hqs.
  assert (Hf : find_user user_id (usage_data_cache (serve qs s))
               = find_user user_id (usage_data_cache s)).
  { revert s. induction Hqs as [|q qs Hq _ IH]; intros s; [done |].
    rewrite serve_cons, IH. by apply handle_find_other. }
  split_and!; [done | by apply check_credit_response_find
              | by apply use_credit_response_find].
Qed.

Lemma other_identifiers_unaffected_witness :
  find_user "u1"
    (usage_data_cache
       (serve [UseCredit "u2" 200; UseCredit "u3" 201; CheckCredit "u2" 900000]
          (cache_of [u2_record 5 100; u1_record 4 100])))
  = find_user "u1" (usage_data_cache (cache_of [u2_record 5 100; u1_record 4 100]))
  /\ (check_credit "u1" 300
        (serve [UseCredit "u2" 200; UseCredit "u3" 201; CheckCredit "u2" 900000]
           (cache_of [u2_record 5 100; u1_record 4 100]))).1
     = (check_credit "u1" 300 (cache_of [u2_record 5 100; u1_record 4 100])).1
  /\ (use_credit "u1" 300
        (serve [UseCredit "u2" 200; UseCredit "u3" 201; CheckCredit "u2" 900000]
           (cache_of [u2_record 5 100; u1_record 4 100]))).1
     = (use_credit "u1" 300 (cache_of [u2_record 5 100; u1_record 4 100])).1.
Proof.
  apply (other_identifiers_unaffected
           [UseCredit "u2" 200; UseCredit "u3" 201; CheckCredit "u2" 900000]
           (cache_of [u2_record 5 100; u1_record 4 100]) "u1" 300).
  repeat constructor; discriminate.
Defined.

(** X5.  Reading twice at the same instant: a second [check_credit] with
    the same clock reading gives the same answer as the first and changes
    nothing more, also when the first one reset the window. *)
Theorem check_credit_idempotent user_id now s :
  check_credit user_id now (check_credit user_id now s).2
  = ((check_credit user_id now s).1, (check_credit user_id now s).2).
Proof.
  destruct user_id as [|a user_id]; [done |].
  destruct (find_user (String a user_id) (usage_data_cache s))
    as [[i u]|] eqn:Hf.
  - destruct (window_expired u now) eqn:Hw.
    + rewrite (check_credit_expired _ _ s i u) by done. simpl.
      rewrite (check_credit_found _ _ _ i (reset_window u now)); try done.
      * by apply (find_user_store _ _ _ u).
      * apply reset_window_fresh.
    + rewrite (check_credit_found _ _ s i u) by done. simpl.
      by rewrite (check_credit_found _ _ s i u).
  - assert (E : check_credit (String a user_id) now s
                = (CreditStatus USAGE_LIMIT false 0, s)).
    { unfold check_credit. simpl. by rewrite Hf. }
    by rewrite !E.
Qed.

(** X6.  [check_credit] and [use_credit] agree at the same instant:
    [check_credit] reports [limit_reached] exactly when [use_credit] would
    be denied, the denial carries the same [reset_timestamp] and changes
    nothing, and the reported credits are never negative. *)
Theorem check_credit_agrees_with_use_credit user_id now s :
  user_id ≠ EmptyString ->
  exists credits_remaining limit_reached reset_timestamp,
    (check_credit user_id now s).1 =
      CreditStatus credits_remaining limit_reached reset_timestamp
    /\ 0 <= credits_remaining
    /\ (limit_reached = true ->
        use_credit user_id now s =
          (Return (LimitReached 0 reset_timestamp), s))
    /\ (limit_reached = false ->
        forall c ts,
          (use_credit user_id now s).1 ≠ Return (LimitReached c ts)).
Proof.
  intros Hne.
  destruct (find_user user_id (usage_data_cache s)) as [[i u]|] eqn:Hf.
  - destruct (window_expired u now) eqn:Hw.
    + rewrite (check_credit_expired _ _ _ i u) by done.
      rewrite (use_credit_expired _ _ _ i u) by done.
      exists USAGE_LIMIT, false, 0. by split_and!.
    + rewrite (check_credit_found _ _ _ i u) by done.
      destruct (Z.eqb_spec (Z.max 0 (USAGE_LIMIT - get_count u 0)) 0)
        as [Hz | Hz]; simpl.
      * exists 0, true, (get_week_start u now + one_week_seconds).
        split_and!; try done. intros _.
        apply (use_credit_denied _ _ _ i u); try done. lia.
      * exists (Z.max 0 (USAGE_LIMIT - get_count u 0)), false, 0.
        split_and!; [done | lia | done |]. intros _ c ts.
        destruct (count u) as [c0|] eqn:Hc.
        -- rewrite (use_credit_granted _ _ _ i u c0); try done.
           unfold get_count in Hz. rewrite Hc in Hz. simpl in Hz. lia.
        -- by rewrite (use_credit_key_error _ _ _ i u).
  - rewrite use_credit_new by done.
    unfold check_credit. rewrite truthy_nonempty, Hf by done. simpl.
    exists USAGE_LIMIT, false, 0. by split_and!.
Qed.

Lemma check_credit_agrees_with_use_credit_witness :
  exists credits_remaining limit_reached reset_timestamp,
    (check_credit "u1" 200 (cache_of [u1_record 5 100])).1 =
      CreditStatus credits_remaining limit_reached reset_timestamp
    /\ 0 <= credits_remaining
    /\ (limit_reached = true ->
        use_credit "u1" 200 (cache_of [u1_record 5 100]) =
          (Return (LimitReached 0 reset_timestamp), cache_of [u1_record 5 100]))
    /\ (limit_reached = false ->
        forall c ts,
          (use_credit "u1" 200 (cache_of [u1_record 5 100])).1
          ≠ Return (LimitReached c ts)).
Proof.
  apply (check_credit_agrees_with_use_credit "u1" 200 (cache_of [u1_record 5 100])).
  discriminate.
Defined.

(** X7.  The credits that a granted [use_credit] reports are the credits
    that [check_credit] reports right after it, at the same instant; they
    are never negative, and that [check_credit] changes nothing. *)
Theorem success_matches_next_check user_id now s k :
  (use_credit user_id now s).1 = Return (Success k) ->
  0 <= k
  /\ exists reset_timestamp,
      check_credit user_id now (use_credit user_id now s).2
      = (CreditStatus k (bool_decide (k = 0)) reset_timestamp,
         (use_credit user_id now s).2).
Proof.
  destruct user_id as [|a user_id]; [done |].
  set (user_id' := String a user_id).
  assert (Hne : user_id' ≠ EmptyString) by done.
  assert (Hstep : forall s' i u' c,
             find_user user_id' (usage_data_cache s') = Some (i, u') ->
             window_expired u' now = false ->
             count u' = Some c -> c <= USAGE_LIMIT ->
             exists ts,
               check_credit user_id' now s'
               = (CreditStatus (USAGE_LIMIT - c)
                    (bool_decide (USAGE_LIMIT - c = 0)) ts, s')).
  { intros s' i u' c Hf' Hw' Hc' Hle.
    rewrite (check_credit_found _ _ s' i u') by done.
    unfold get_count. rewrite Hc'. simpl.
    rewrite Z.max_r by lia.
    destruct (Z.eqb_spec (USAGE_LIMIT - c) 0) as [Hz | Hz].
    - rewrite Hz. by eexists.
    - rewrite bool_decide_false by done. by eexists. }
  destruct (find_user user_id' (usage_data_cache s)) as [[i u]|] eqn:Hf.
  - destruct (window_expired u now) eqn:Hw.
    + rewrite (use_credit_expired _ _ s i u) by done. simpl.
      intros [= <-]. split; [done |].
      apply (Hstep _ i {| id := id u; count := Some 1; week_start := Some now |} 1);
        [by apply (find_user_store _ _ _ u) | | done | done].
      apply (reset_window_fresh u now).
    + destruct (decide (USAGE_LIMIT <= get_count u 0)) as [Hge | Hlt].
      * by rewrite (use_credit_denied _ _ s i u).
      * destruct (count u) as [c|] eqn:Hc.
        -- unfold get_count in Hlt. rewrite Hc in Hlt. simpl in Hlt.
           rewrite (use_credit_granted _ _ s i u c) by (try done; lia). simpl.
           intros [= <-]. split; [lia |].
           apply (Hstep _ i (set_count u (c + 1)) (c + 1));
             [by apply (find_user_store _ _ _ u) | done | done | lia].
        -- by rewrite (use_credit_key_error _ _ s i u).
  - rewrite (use_credit_new _ _ s) by done. simpl.
    intros [= <-]. split; [done |].
    apply (Hstep _ (length (usage_data_cache s))
             {| id := Some user_id'; count := Some 1; week_start := Some now |} 1);
      [by apply find_user_append | | done | done].
    apply (reset_window_fresh {| id := None; count := None; week_start := None |} now).
Qed.

Lemma success_matches_next_check_witness :
  0 <= 0
  /\ exists reset_timestamp,
      check_credit "u1" 200 (use_credit "u1" 200 (cache_of [u1_record 4 100])).2
      = (CreditStatus 0 (bool_decide (0 = 0)) reset_timestamp,
         (use_credit "u1" 200 (cache_of [u1_record 4 100])).2).
Proof.
  apply (success_matches_next_check "u1" 200 (cache_of [u1_record 4 100]) 0).
  reflexivity.
Defined.

(** X8.  A record without the key 'count' whose window has not expired:
    [check_credit] reads the missing count as 0 and reports all 5 credits,
    but [use_credit] raises KeyError on [user_record['count'] += 1] and
    leaves the state as it was. *)
Theorem use_credit_missing_count user_id now s i u :
  user_id ≠ EmptyString ->
  find_user user_id (usage_data_cache s) = Some (i, u) ->
  count u = None ->
  now <= get_week_start u 0 + 7 * 24 * 3600 ->
  check_credit user_id now s = (CreditStatus 5 false 0, s)
  /\ use_credit user_id now s = (Raise KeyError, s).
Proof.
  intros Hne Hf Hc Hw.
  assert (Hw' : window_expired u now = false) by by apply window_expired_false.
  split.
  - rewrite (check_credit_found _ _ s i u) by done.
    unfold get_count. by rewrite Hc.
  - by apply (use_credit_key_error _ _ s i u).
Qed.

Lemma use_credit_missing_count_witness :
  check_credit "u1" 200
    (cache_of [{| id := Some "u1"; count := None; week_start := Some 100 |}])
  = (CreditStatus 5 false 0,
     cache_of [{| id := Some "u1"; count := None; week_start := Some 100 |}])
  /\ use_credit "u1" 200
       (cache_of [{| id := Some "u1"; count := None; week_start := Some 100 |}])
     = (Raise KeyError,
        cache_of [{| id := Some "u1"; count := None; week_start := Some 100 |}]).
Proof.
  apply (use_credit_missing_count "u1" 200 _ 0%nat
           {| id := Some "u1"; count := None; week_start := Some 100 |});
    [discriminate | reflexivity | reflexivity | done].
Defined.

(** X9.  No request changes the cache without raising the dirty flag, and
    no request clears the flag or touches the remote document: after any
    sequence of requests, a cache that differs from the initial one comes
    with the flag set. *)
Theorem serve_flags_every_change qs s :
  uploaded (serve qs s) = uploaded s
  /\ (data_changed s = true -> data_changed (serve qs s) = true)
  /\ (usage_data_cache (serve qs s) ≠ usage_data_cache s ->
      data_changed (serve qs s) = true).
Proof.
  split_and!; [apply serve_uploaded | apply serve_keeps_changed |].
  revert s. induction qs as [|q qs IH]; intros s Hne; [done |].
  rewrite serve_cons in *.
  destruct (handle_marks_changes q s) as [Heq | Hd].
  - rewrite Heq in *. by apply IH.
  - by apply serve_keeps_changed.
Qed.

Lemma serve_flags_every_change_witness :
  data_changed
    (serve [CheckCredit "u1" 200; CheckCredit "u1" 900000]
       (cache_of [u1_record 5 100])) = true.
Proof.
  apply (serve_flags_every_change
           [CheckCredit "u1" 200; CheckCredit "u1" 900000]
           (cache_of [u1_record 5 100])).
  discriminate.
Defined.

(** * Further properties of the persister *)

Section Persister.
Implicit Types (s : state) (o : publish_outcome) (os : list publish_outcome).

Lemma background_persister_cons api o os s :
  background_persister api (o :: os) s =
    (((persist_data_to_hub api o s).1
        ++ (background_persister api os (persist_data_to_hub api o s).2).1)%list,
     (background_persister api os (persist_data_to_hub api o s).2).2).
Proof.
  simpl. destruct (persist_data_to_hub api o s) as [ev s1]. simpl.
  by destruct (background_persister api os s1).
Qed.

Lemma background_persister_idle api os :
  forall s, data_changed s = false -> background_persister api os s = ([], s).
Proof.
  induction os as [|o os IH]; intros s Hd; [done |].
  rewrite background_persister_cons, persist_skips by auto. simpl.
  by rewrite IH.
Qed.

Lemma set_clear_changed s :
  data_changed s = true -> set_changed (clear_changed s) = s.
Proof. destruct s as [c d up]. simpl. by intros ->. Qed.

Lemma persist_failure api o s :
  is_Some api -> data_changed s = true -> o ≠ UploadSucceeds ->
  (persist_data_to_hub api o s).2 = s.
Proof.
  intros Ha Hd Ho. rewrite persist_runs by done.
  destruct o; simpl; try done; by apply set_clear_changed.
Qed.

Lemma load_initial_data_frame json_loads api d s :
  data_changed (load_initial_data json_loads api d s).2 = data_changed s
  /\ uploaded (load_initial_data json_loads api d s).2 = uploaded s.
Proof.
  destruct api as [a|]; [| done]. simpl.
  destruct d as [e | content]; simpl; [by destruct e |].
  destruct (truthy content); [| done].
  by destruct (json_loads content).
Qed.

End Persister.

(** X10.  After a publish cycle that went through, a further cycle does
    nothing until a handler raises the flag again: no file is written and
    no upload is called. *)
Theorem publish_then_idle api o s :
  persist_data_to_hub api o (persist_data_to_hub api UploadSucceeds s).2
  = ([], (persist_data_to_hub api UploadSucceeds s).2).
Proof.
  apply persist_skips.
  destruct (data_changed s) eqn:Hd; [| left; by rewrite persist_skips by auto].
  destruct api as [a|]; [| by right].
  left. by rewrite persist_runs.
Qed.

(** X11.  Convergence of the persister on its own: over a run of wake-ups
    during which no request is served, with a client and a set flag, as
    soon as one wake-up gets its upload through, the remote document is the
    cache and the flag is clear, however many cycles failed before and
    whatever the later cycles would have met; the cache is uploaded exactly
    once. *)
Theorem background_persister_converges api os s :
  is_Some api ->
  data_changed s = true ->
  UploadSucceeds ∈ os ->
  (background_persister api os s).2
  = {| usage_data_cache := usage_data_cache s;
       data_changed := false;
       uploaded := usage_data_cache s :: uploaded s |}.
Proof.
  intros Ha Hd. induction os as [|o os IH]; intros Hin;
    [by apply elem_of_nil in Hin |].
  rewrite background_persister_cons. simpl.
  assert (Ho : o = UploadSucceeds \/ o ≠ UploadSucceeds)
    by (destruct o; auto).
  destruct Ho as [-> | Hne].
  - rewrite persist_runs by done. simpl.
    by rewrite background_persister_idle.
  - rewrite persist_failure by done. apply IH.
    apply elem_of_cons in Hin as [Heq | Hin]; [congruence | done].
Qed.

Lemma background_persister_converges_witness :
  (background_persister (Some (MkHfApi "hf_token"))
     [UploadFails; TempFileFails; UploadSucceeds; UploadFails]
     (set_changed (cache_of [u1_record 1 100]))).2
  = {| usage_data_cache := [u1_record 1 100];
       data_changed := false;
       uploaded := [[u1_record 1 100]] |}.
Proof.
  apply (background_persister_converges (Some (MkHfApi "hf_token"))
           [UploadFails; TempFileFails; UploadSucceeds; UploadFails]
           (set_changed (cache_of [u1_record 1 100])));
    [by eexists | reflexivity | by do 2 right; left].
Defined.

(** X13.  After the startup load, whatever it met, the persister uploads
    nothing until a handler changes the cache: the load never raises the
    flag. *)
Theorem no_upload_before_first_mutation json_loads api d os :
  background_persister api os (load_initial_data json_loads api d startup).2
  = ([], (load_initial_data json_loads api d startup).2).
Proof.
  apply background_persister_idle.
  by destruct (load_initial_data_frame json_loads api d startup) as [-> _].
Qed.

(** X14.  When the startup load ended with an empty cache (no file, an
    unreadable one, a failed download), the first credit used by anybody
    makes the next successful publish cycle replace the remote document by
    the single new record. *)
Theorem first_publish_after_empty_load json_loads a d user_id now :
  user_id ≠ EmptyString ->
  usage_data_cache (load_initial_data json_loads (Some a) d startup).2 = [] ->
  uploaded
    (persist_data_to_hub (Some a) UploadSucceeds
       (handle (UseCredit user_id now)
          (load_initial_data json_loads (Some a) d startup).2)).2
  = [[{| id := Some user_id; count := Some 1; week_start := Some now |}]].
Proof.
  intros Hne Hempty.
  set (s0 := (load_initial_data json_loads (Some a) d startup).2) in *.
  destruct (load_initial_data_frame json_loads (Some a) d startup) as [_ Hup].
  fold s0 in Hup. simpl.
  rewrite (use_credit_new _ _ s0) by (try done; by rewrite Hempty).
  rewrite persist_runs by done. simpl. by rewrite Hempty, Hup.
Qed.

Lemma first_publish_after_empty_load_witness :
  uploaded
    (persist_data_to_hub (Some (MkHfApi "hf_token")) UploadSucceeds
       (handle (UseCredit "u1" 200)
          (load_initial_data sample_json_loads (Some (MkHfApi "hf_token"))
             (Downloaded "{not json") startup).2)).2
  = [[{| id := Some "u1"; count := Some 1; week_start := Some 200 |}]].
Proof.
  apply (first_publish_after_empty_load sample_json_loads (MkHfApi "hf_token")
           (Downloaded "{not json") "u1" 200);
    [discriminate | reflexivity].
Defined.

(** * Strings, the key pool and the identifier *)

Section Strings.
Implicit Types (s r : string) (c : ascii).

Lemma split_comma_cons s : exists piece pieces, split_comma s = piece :: pieces.
Proof.
  induction s as [|a s (piece & pieces & IH)]; simpl; [by eauto |].
  destruct (Ascii.eqb a ","); [by eauto |]. rewrite IH. by eauto.
Qed.

Lemma split_comma_no_comma s :
  Forall (fun piece => occurs "," piece = false) (split_comma s).
Proof.
  induction s as [|a s IH]; simpl; [by repeat constructor |].
  destruct (Ascii.eqb a ",") eqn:Ha; [by constructor |].
  destruct (split_comma s) as [|piece pieces]; [by repeat constructor; simpl; rewrite Ha |].
  apply Forall_cons in IH as [Hp Hps]. constructor; [| done].
  simpl. by rewrite Ha.
Qed.

Lemma split_comma_clean_piece s :
  occurs "," s = false -> split_comma s = [s].
Proof.
  induction s as [|a s IH]; simpl; [done |].
  intros [Ha Hs]%orb_false_iff. rewrite Ha. by rewrite IH.
Qed.

Lemma split_comma_app s r :
  occurs "," s = false ->
  split_comma (s ++ String "," r) = s :: split_comma r.
Proof.
  induction s as [|a s IH]; simpl; [done |].
  intros [Ha Hs]%orb_false_iff. rewrite Ha. by rewrite IH.
Qed.

Lemma lstrip_occurs c s : occurs c (lstrip s) = true -> occurs c s = true.
Proof.
  induction s as [|a s IH]; simpl; [done |].
  destruct (isspace a); [| done].
  intros H%IH. rewrite H. apply orb_true_r.
Qed.

Lemma rstrip_occurs c s : occurs c (rstrip s) = true -> occurs c s = true.
Proof.
  induction s as [|a s IH]; simpl; [done |].
  destruct (rstrip s) as [|b r] eqn:Hr.
  - destruct (isspace a); simpl; [done |].
    rewrite orb_false_r. intros ->. done.
  - simpl in *. intros [-> | H]%orb_true_iff; [done |].
    rewrite IH by done. apply orb_true_r.
Qed.

Lemma lstrip_first s c : first_char (lstrip s) = Some c -> isspace c = false.
Proof.
  induction s as [|a s IH]; simpl; [done |].
  destruct (isspace a) eqn:Ha; [done |]. simpl. by intros [= <-].
Qed.

Lemma rstrip_last s c : last_char (rstrip s) = Some c -> isspace c = false.
Proof.
  induction s as [|a s IH]; simpl; [done |].
  destruct (rstrip s) as [|b r] eqn:Hr.
  - destruct (isspace a) eqn:Ha; simpl; [done |]. by intros [= <-].
  - done.
Qed.

Lemma lstrip_last s c :
  (forall c', last_char s = Some c' -> isspace c' = false) ->
  last_char (lstrip s) = Some c -> isspace c = false.
Proof.
  induction s as [|a s IH]; simpl; [done |].
  destruct (isspace a) eqn:Ha; [| by intros H; apply H].
  destruct s as [|b s]; [done |]. intros H. by apply IH.
Qed.

Lemma lstrip_id s :
  (forall c, first_char s = Some c -> isspace c = false) -> lstrip s = s.
Proof. destruct s as [|a s]; simpl; [done |]. intros H. by rewrite (H a). Qed.

Lemma rstrip_id s :
  (forall c, last_char s = Some c -> isspace c = false) -> rstrip s = s.
Proof.
  induction s as [|a s IH]; [done |]. intros H.
  destruct s as [|b s]; [simpl; by rewrite (H a) |].
  change (rstrip (String a (String b s)))
    with (match rstrip (String b s) with
          | EmptyString =>
              if isspace a then EmptyString else String a EmptyString
          | r => String a r
          end).
  by rewrite IH.
Qed.

(** What [strip] returns has no white space at either end and no
    character that the string did not have. *)
Lemma strip_spec s :
  (forall c, first_char (strip s) = Some c -> isspace c = false)
  /\ (forall c, last_char (strip s) = Some c -> isspace c = false)
  /\ (forall c, occurs c s = false -> occurs c (strip s) = false).
Proof.
  unfold strip. split_and!.
  - intros c. apply lstrip_first.
  - intros c. apply lstrip_last. intros c'. apply rstrip_last.
  - intros c Hc. destruct (occurs c (lstrip (rstrip s))) eqn:Ho; [| done].
    apply lstrip_occurs, rstrip_occurs in Ho. congruence.
Qed.

Lemma strip_clean s : clean s -> strip s = s.
Proof.
  intros (_ & _ & Hf & Hl). unfold strip. by rewrite (rstrip_id s), lstrip_id.
Qed.

Lemma truthy_true s : truthy s = true <-> s ≠ EmptyString.
Proof. by destruct s. Qed.

End Strings.

(** X15.  Every key that ends up in the pool is usable: it is not empty,
    it contains no comma, and it carries no white space at either end,
    whatever the secret ALL_GEMINI_API_KEYS holds (empty entries and
    entries of white space are dropped). *)
Theorem gemini_keys_clean ALL_GEMINI_API_KEYS :
  Forall clean (load_gemini_keys ALL_GEMINI_API_KEYS).
Proof.
  destruct ALL_GEMINI_API_KEYS as [keys|]; [| by constructor]. simpl.
  destruct (truthy keys); [| by constructor].
  unfold parse_gemini_keys. apply Forall_fmap, Forall_forall.
  intros key [Hin Hk]%list_elem_of_In%filter_In. apply list_elem_of_In in Hin.
  pose proof (proj1 (Forall_forall _ _) (split_comma_no_comma keys) key Hin)
    as Hcomma.
  destruct (strip_spec key) as (Hf & Hl & Ho). simpl. unfold clean.
  split_and!; [by apply truthy_true | by apply Ho | done | done].
Qed.

(** X16.  A secret written as clean keys separated by commas loads as
    exactly those keys, in order. *)
Theorem gemini_keys_round_trip keys :
  Forall clean keys ->
  load_gemini_keys (Some (join_comma keys)) = keys.
Proof.
  assert (Hparse : forall ks, Forall clean ks -> ks ≠ [] ->
                              parse_gemini_keys (join_comma ks) = ks).
  { induction ks as [|k ks IH]; [done |]. intros [Hk Hks]%Forall_cons _.
    pose proof Hk as (Hne & Hcomma & _).
    unfold parse_gemini_keys in *.
    destruct ks as [|k' ks].
    - simpl. rewrite split_comma_clean_piece by done. simpl.
      rewrite (strip_clean k) by done.
      rewrite (proj2 (truthy_true k)) by done. simpl.
      by rewrite (strip_clean k).
    - change (join_comma (k :: k' :: ks))
        with (k ++ String "," (join_comma (k' :: ks)))%string.
      rewrite split_comma_app by done. simpl.
      rewrite (strip_clean k) by done.
      rewrite (proj2 (truthy_true k)) by done. simpl.
      rewrite (strip_clean k) by done. f_equal. by apply IH. }
  intros Hks. destruct keys as [|k ks]; [done |].
  unfold load_gemini_keys.
  assert (Ht : truthy (join_comma (k :: ks)) = true).
  { apply Forall_cons in Hks as [(Hne & _) _].
    destruct k as [|a k]; [done |]. by destruct ks. }
  rewrite Ht. by apply Hparse.
Qed.

Lemma gemini_keys_round_trip_witness :
  load_gemini_keys (Some (join_comma ["key-A"; "key B"; "k3"]))
  = ["key-A"; "key B"; "k3"].
Proof.
  apply (gemini_keys_round_trip ["key-A"; "key B"; "k3"]).
  repeat constructor; try discriminate; by intros c [= <-].
Defined.

(** Keys as an operator may write them, with blanks and empty entries. *)
Example gemini_keys_example :
  load_gemini_keys (Some " key-A , ,key B,,k3 ,") = ["key-A"; "key B"; "k3"].
Proof. reflexivity. Qed.

Section IdentifierProperties.

Variable V : Type.
Variable py_bool : V -> bool.
Variable py_str : V -> string.
Implicit Types (data : gmap string V) (meta : request_meta) (s : state).

Lemma head_split_comma piece tail :
  occurs "," piece = false ->
  head (split_comma piece) = Some piece
  /\ head (split_comma (piece ++ String "," tail)) = Some piece.
Proof.
  intros Hp. by rewrite split_comma_clean_piece, split_comma_app.
Qed.

Lemma lookup_nonempty data v : data !! "fingerprint" = Some v -> data ≠ ∅.
Proof. intros Hv ->. by rewrite lookup_empty in Hv. Qed.

(** X17.  A truthy fingerprint in the body is the identifier, whatever the
    X-Forwarded-For header and the peer address are: both routes then run
    the quota on [str(fingerprint)], so requests with the same fingerprint
    draw on the same quota from any address. *)
Theorem fingerprint_takes_precedence data meta now s v :
  data !! "fingerprint" = Some v ->
  py_bool v = true ->
  get_user_identifier V py_bool py_str data meta = Some (py_str v)
  /\ check_credit_route V py_bool py_str (Some data) meta now s
     = check_credit (py_str v) now s
  /\ use_credit_route V py_bool py_str (Some data) meta now s
     = use_credit (py_str v) now s.
Proof.
  intros Hv Hb.
  assert (Hid : get_user_identifier V py_bool py_str data meta = Some (py_str v)).
  { unfold get_user_identifier. by rewrite Hv, Hb. }
  pose proof (lookup_nonempty data v Hv) as Hne.
  unfold check_credit_route, use_credit_route.
  rewrite !decide_False by done. by rewrite Hid.
Qed.

Lemma forwarded_for_identifier data meta first others :
  (forall v, data !! "fingerprint" = Some v -> py_bool v = false) ->
  x_forwarded_for meta = first :: others ->
  get_user_identifier V py_bool py_str data meta
  = Some (strip (default EmptyString (head (split_comma first)))).
Proof.
  intros Hfp Hxff. unfold get_user_identifier. rewrite Hxff.
  destruct (data !! "fingerprint") as [v|] eqn:Hv; [| done].
  by rewrite (Hfp v).
Qed.

(** X18.  Without a truthy fingerprint, a request that carries an
    X-Forwarded-For header is identified by the first entry of its first
    value, stripped: the identifier has no comma and no white space at
    either end, and neither the later entries nor the peer address play a
    part. *)
Theorem forwarded_for_first_entry data meta first others :
  (forall v, data !! "fingerprint" = Some v -> py_bool v = false) ->
  x_forwarded_for meta = first :: others ->
  exists user_id,
    get_user_identifier V py_bool py_str data meta = Some user_id
    /\ occurs "," user_id = false
    /\ (forall c, first_char user_id = Some c -> isspace c = false)
    /\ (forall c, last_char user_id = Some c -> isspace c = false)
    /\ (forall piece tail,
          occurs "," piece = false ->
          first = piece \/ first = (piece ++ String "," tail)%string ->
          user_id = strip piece).
Proof.
  intros Hfp Hxff.
  exists (strip (default EmptyString (head (split_comma first)))).
  split_and!.
  - by apply (forwarded_for_identifier _ _ _ others).
  - apply strip_spec.
    destruct (split_comma_cons first) as (piece & pieces & Hs).
    pose proof (split_comma_no_comma first) as Hall. rewrite Hs in *.
    by apply Forall_cons in Hall as [? _].
  - apply strip_spec.
  - apply strip_spec.
  - intros piece tail Hp [-> | ->];
      destruct (head_split_comma piece tail Hp) as [H1 H2];
      by rewrite ?H1, ?H2.
Qed.

(** X19.  When that first entry is empty or white space, the identifier is
    the empty string and both routes answer 400 without touching the state:
    the peer address is not used as a fallback. *)
Theorem blank_forwarded_for_rejected data meta now s piece tail others :
  data ≠ ∅ ->
  (forall v, data !! "fingerprint" = Some v -> py_bool v = false) ->
  occurs "," piece = false ->
  strip piece = EmptyString ->
  x_forwarded_for meta = piece :: others
  \/ x_forwarded_for meta = (piece ++ String "," tail)%string :: others ->
  check_credit_route V py_bool py_str (Some data) meta now s
  = (BadRequest "User identifier is required.", s)
  /\ use_credit_route V py_bool py_str (Some data) meta now s
     = (Return (BadRequest "User identifier is required."), s).
Proof.
  intros Hne Hfp Hp Hblank Hxff.
  assert (Hid : get_user_identifier V py_bool py_str data meta
                = Some EmptyString).
  { destruct (head_split_comma piece tail Hp) as [H1 H2].
    destruct Hxff as [Hxff | Hxff];
      rewrite (forwarded_for_identifier _ _ _ _ Hfp Hxff);
      by rewrite ?H1, ?H2; simpl; rewrite Hblank. }
  unfold check_credit_route, use_credit_route.
  rewrite !decide_False by done. by rewrite Hid.
Qed.

End IdentifierProperties.

Lemma fingerprint_takes_precedence_witness :
  get_user_identifier string truthy (fun v => v)
    {["fingerprint" := "fp-1"]}
    {| x_forwarded_for := ["10.0.0.1, 10.0.0.2"]; remote_addr := Some "10.0.0.3" |}
  = Some "fp-1"
  /\ check_credit_route string truthy (fun v => v)
       (Some {["fingerprint" := "fp-1"]})
       {| x_forwarded_for := ["10.0.0.1, 10.0.0.2"]; remote_addr := Some "10.0.0.3" |}
       200 (cache_of [])
     = check_credit "fp-1" 200 (cache_of [])
  /\ use_credit_route string truthy (fun v => v)
       (Some {["fingerprint" := "fp-1"]})
       {| x_forwarded_for := ["10.0.0.1, 10.0.0.2"]; remote_addr := Some "10.0.0.3" |}
       200 (cache_of [])
     = use_credit "fp-1" 200 (cache_of []).
Proof.
  apply (fingerprint_takes_precedence string truthy (fun v => v)
           {["fingerprint" := "fp-1"]} _ 200 (cache_of []) "fp-1");
    reflexivity.
Defined.

Lemma forwarded_for_first_entry_witness :
  exists user_id,
    get_user_identifier string truthy (fun v => v)
      {["fingerprint" := EmptyString]}
      {| x_forwarded_for := [" 10.0.0.1 , 10.0.0.2"];
         remote_addr := Some "10.0.0.3" |}
    = Some user_id
    /\ occurs "," user_id = false
    /\ (forall c, first_char user_id = Some c -> isspace c = false)
    /\ (forall c, last_char user_id = Some c -> isspace c = false)
    /\ (forall piece tail,
          occurs "," piece = false ->
          " 10.0.0.1 , 10.0.0.2" = piece
          \/ " 10.0.0.1 , 10.0.0.2" = (piece ++ String "," tail)%string ->
          user_id = strip piece).
Proof.
  apply (forwarded_for_first_entry string truthy (fun v => v)
           {["fingerprint" := EmptyString]}
           {| x_forwarded_for := [" 10.0.0.1 , 10.0.0.2"];
              remote_addr := Some "10.0.0.3" |}
           " 10.0.0.1 , 10.0.0.2" []).
  - intros v Hv. rewrite lookup_singleton_eq in Hv. by injection Hv as <-.
  - reflexivity.
Defined.

Lemma blank_forwarded_for_rejected_witness :
  check_credit_route string truthy (fun v => v)
    (Some {["session" := "abc"]})
    {| x_forwarded_for := [" ,10.0.0.2"]; remote_addr := Some "10.0.0.3" |}
    200 (cache_of [u1_record 1 100])
  = (BadRequest "User identifier is required.", cache_of [u1_record 1 100])
  /\ use_credit_route string truthy (fun v => v)
       (Some {["session" := "abc"]})
       {| x_forwarded_for := [" ,10.0.0.2"]; remote_addr := Some "10.0.0.3" |}
       200 (cache_of [u1_record 1 100])
     = (Return (BadRequest "User identifier is required."),
        cache_of [u1_record 1 100]).
Proof.
  apply (blank_forwarded_for_rejected string truthy (fun v => v)
           {["session" := "abc"]}
           {| x_forwarded_for := [" ,10.0.0.2"]; remote_addr := Some "10.0.0.3" |}
           200 (cache_of [u1_record 1 100]) " " "10.0.0.2" []).
  - apply map_non_empty_singleton.
  - intros v Hv. by rewrite lookup_singleton_ne in Hv.
  - reflexivity.
  - reflexivity.
  - by right.
Defined.

(** * Prompt enhancement *)

Section ReplyParsing.
Implicit Types (s pre post body : string) (c : ascii).

Lemma find_char_spec c s :
  (occurs c s = false -> find_char c s = -1)
  /\ (occurs c s = true -> 0 <= find_char c s).
Proof.
  induction s as [|a s [IH1 IH2]]; simpl; [done |].
  destruct (Ascii.eqb a c); simpl; [done |].
  destruct (occurs c s).
  - split; [done | intros _]. specialize (IH2 eq_refl).
    destruct (Z.eqb_spec (find_char c s) (-1)); lia.
  - split; [intros _ | done]. by rewrite IH1.
Qed.

Lemma rfind_char_spec c s :
  (occurs c s = false -> rfind_char c s = -1)
  /\ (occurs c s = true -> 0 <= rfind_char c s).
Proof.
  induction s as [|a s [IH1 IH2]]; simpl; [done |].
  destruct (occurs c s).
  - rewrite orb_true_r. split; [done | intros _]. specialize (IH2 eq_refl).
    destruct (Z.eqb_spec (rfind_char c s) (-1)); lia.
  - rewrite orb_false_r, IH1 by done. simpl.
    by destruct (Ascii.eqb a c).
Qed.

Lemma find_char_app c pre s :
  occurs c pre = false ->
  find_char c (pre ++ String c s) = Z.of_nat (String.length pre).
Proof.
  induction pre as [|a pre IH]; simpl.
  - by rewrite Ascii.eqb_refl.
  - intros [Ha Hp]%orb_false_iff. rewrite Ha, IH by done.
    destruct (Z.eqb_spec (Z.of_nat (String.length pre)) (-1)); lia.
Qed.

Lemma rfind_char_app c s post :
  occurs c post = false ->
  rfind_char c (s ++ String c post) = Z.of_nat (String.length s).
Proof.
  intros Hp. induction s as [|a s IH]; simpl.
  - rewrite (proj1 (rfind_char_spec c post)) by done. simpl.
    by rewrite Ascii.eqb_refl.
  - rewrite IH.
    destruct (Z.eqb_spec (Z.of_nat (String.length s)) (-1)); lia.
Qed.

Lemma substring_skip pre s m :
  String.substring (String.length pre) m (pre ++ s) = String.substring 0 m s.
Proof. induction pre as [|a pre IH]; simpl; [done | apply IH]. Qed.

Lemma substring_prefix s post :
  String.substring 0 (String.length s) (s ++ post) = s.
Proof.
  induction s as [|a s IH]; simpl; [by destruct post | by rewrite IH].
Qed.

Lemma string_app_cons c s1 s2 :
  (String c s1 ++ s2 = String c (s1 ++ s2))%string.
Proof. reflexivity. Qed.

Lemma string_app_assoc s1 s2 s3 :
  ((s1 ++ s2) ++ s3 = s1 ++ (s2 ++ s3))%string.
Proof.
  induction s1 as [|a s1 IH]; [reflexivity |].
  rewrite !string_app_cons. by f_equal.
Qed.

Lemma string_app_length s1 s2 :
  String.length (s1 ++ s2) = (String.length s1 + String.length s2)%nat.
Proof.
  induction s1 as [|a s1 IH]; [reflexivity |].
  rewrite string_app_cons. simpl. by rewrite IH.
Qed.

End ReplyParsing.

(** X20.  What the handler hands to [json.loads] is the reply from its
    first opening brace to its last closing brace: text around a JSON
    object, such as a Markdown fence, is cut off.  When the reply lacks an
    opening or a closing brace, nothing is extracted. *)
Theorem extract_json_spec pre body post text :
  (occurs "{" pre = false ->
   occurs "}" post = false ->
   extract_json (pre ++ String "{" (body ++ String "}" post))
   = Some (String "{" (body ++ String "}" EmptyString)))
  /\ (extract_json text = None
      <-> occurs "{" text = false \/ occurs "}" text = false).
Proof.
  split.
  - intros Hpre Hpost. unfold extract_json.
    rewrite find_char_app by done.
    replace (pre ++ String "{" (body ++ String "}" post))%string
      with ((pre ++ String "{" body) ++ String "}" post)%string
      by (by rewrite string_app_assoc).
    rewrite rfind_char_app by done.
    rewrite string_app_length. simpl String.length.
    destruct (Z.eqb_spec (Z.of_nat (String.length pre)) (-1)); [lia |].
    destruct (Z.eqb_spec
                (Z.of_nat (String.length pre + S (String.length body)) + 1) 0);
      [lia |].
    simpl. f_equal. unfold slice.
    rewrite Nat2Z.id.
    replace (Z.to_nat
               (Z.of_nat (String.length pre + S (String.length body)) + 1
                - Z.of_nat (String.length pre)))
      with (String.length (String "{" (body ++ String "}" EmptyString)))
      by (simpl; rewrite string_app_length; simpl; lia).
    rewrite string_app_assoc, substring_skip.
    replace (String "{" body ++ String "}" post)%string
      with (String "{" (body ++ String "}" EmptyString) ++ post)%string
      by (by rewrite !string_app_cons, string_app_assoc).
    apply substring_prefix.
  - unfold extract_json.
    destruct (find_char_spec "{" text) as [Hf0 Hf1].
    destruct (rfind_char_spec "}" text) as [Hr0 Hr1].
    destruct (occurs "{" text); destruct (occurs "}" text);
      repeat match goal with
             | H : ?x = ?x -> _ |- _ => specialize (H eq_refl)
             | H : true = false -> _ |- _ => clear H
             | H : false = true -> _ |- _ => clear H
             end.
    + destruct (Z.eqb_spec (find_char "{" text) (-1)); [lia |].
      destruct (Z.eqb_spec (rfind_char "}" text + 1) 0); [lia |].
      simpl. split; [done | by intros [|]].
    + rewrite Hr0. rewrite orb_true_r. split; auto.
    + rewrite Hf0. simpl. split; auto.
    + rewrite Hf0. simpl. split; auto.
Qed.

Lemma extract_json_spec_witness :
  extract_json
    ("```json " ++ String "{" ("'animation_prompt': 'x'" ++ String "}" " ```"))
  = Some (String "{" ("'animation_prompt': 'x'" ++ String "}" EmptyString)).
Proof.
  apply (extract_json_spec "```json " "'animation_prompt': 'x'" " ```"
           EmptyString); reflexivity.
Defined.

(** A closing brace before the only opening one: the slice is empty. *)
Example extract_json_reversed : extract_json "} and {" = Some EmptyString.
Proof. reflexivity. Qed.

Section Rotation.

Variable J : Type.
Variable json_loads_reply : string -> option J.
Variable gemini_keys : list string.
Variable generate_content : string -> nat -> gemini_reply.

Local Abbreviation loop :=
  (retry_loop J json_loads_reply gemini_keys generate_content).
Local Abbreviation n := (length gemini_keys).

Lemma rotation_S start m :
  (start < n)%nat ->
  rotation n start (S m) = start :: rotation n ((start + 1) mod n) m.
Proof.
  intros Hlt. unfold rotation. simpl. rewrite Nat.add_0_r, Nat.mod_small by done.
  f_equal. rewrite <- fmap_S_seq, <- list_fmap_compose.
  apply list_fmap_ext. intros _ i _. simpl.
  rewrite Nat.Div0.add_mod_idemp_l. f_equal. lia.
Qed.

(** The loop configures the keys in rotation order, one per iteration, and
    leaves [key_index] after the last key it configured. *)
Lemma retry_loop_rotation remaining :
  forall attempt key_index cleaned_response configured,
    (key_index < n)%nat ->
    exists m,
      (m <= remaining)%nat
      /\ (loop remaining attempt key_index cleaned_response configured).2
         = (configured ++ rotation n key_index m)%list
      /\ (loop remaining attempt key_index cleaned_response configured).1.2
         = ((key_index + m) mod n)%nat
      /\ (loop remaining attempt key_index cleaned_response configured).1.1
         ≠ RaisesIndexError
      /\ (forall http_status error,
            (loop remaining attempt key_index cleaned_response configured).1.1
            = EnhanceFailed http_status error ->
            m = remaining /\ http_status = 503)
      /\ (forall enhanced_prompts,
            (loop remaining attempt key_index cleaned_response configured).1.1
            = Enhanced enhanced_prompts ->
            exists m' key text cleaned,
              m = S m'
              /\ gemini_keys !! ((key_index + m') mod n)%nat = Some key
              /\ generate_content key (attempt + m')%nat = GeminiText text
              /\ extract_json text = Some cleaned
              /\ json_loads_reply cleaned = Some enhanced_prompts).
Proof.
  induction remaining as [|remaining IH];
    intros attempt key_index cleaned_response configured Hlt.
  { exists 0%nat. simpl. rewrite app_nil_r, Nat.add_0_r, Nat.mod_small by done.
    split_and!; try done. by intros ? ? [= <- _]. }
  assert (Hn : n ≠ 0%nat) by lia.
  assert (Hnext : ((key_index + 1) mod n < n)%nat)
    by by apply Nat.mod_upper_bound.
  destruct (proj2 (lookup_lt_is_Some gemini_keys key_index) Hlt)
    as [current_key Hkey].
  assert (Hone : exists m,
             (m <= S remaining)%nat
             /\ (configured ++ [key_index])%list
                = (configured ++ rotation n key_index m)%list
             /\ ((key_index + 1) mod n)%nat = ((key_index + m) mod n)%nat
             /\ m = 1%nat).
  { exists 1%nat. split_and!; try done; [lia |].
    by rewrite rotation_S by done. }
  assert (Hrec : forall cleaned,
             exists m,
               (m <= S remaining)%nat
               /\ (loop remaining (S attempt) ((key_index + 1) mod n)%nat cleaned
                     (configured ++ [key_index])).2
                  = (configured ++ rotation n key_index m)%list
               /\ (loop remaining (S attempt) ((key_index + 1) mod n)%nat cleaned
                     (configured ++ [key_index])).1.2
                  = ((key_index + m) mod n)%nat
               /\ (loop remaining (S attempt) ((key_index + 1) mod n)%nat cleaned
                     (configured ++ [key_index])).1.1
                  ≠ RaisesIndexError
               /\ (forall http_status error,
                     (loop remaining (S attempt) ((key_index + 1) mod n)%nat
                        cleaned (configured ++ [key_index])).1.1
                     = EnhanceFailed http_status error ->
                     m = S remaining /\ http_status = 503)
               /\ (forall enhanced_prompts,
                     (loop remaining (S attempt) ((key_index + 1) mod n)%nat
                        cleaned (configured ++ [key_index])).1.1
                     = Enhanced enhanced_prompts ->
                     exists m' key text cleaned',
                       m = S m'
                       /\ gemini_keys !! ((key_index + m') mod n)%nat = Some key
                       /\ generate_content key (attempt + m')%nat
                          = GeminiText text
                       /\ extract_json text = Some cleaned'
                       /\ json_loads_reply cleaned' = Some enhanced_prompts)).
  { intros cleaned.
    destruct (IH (S attempt) ((key_index + 1) mod n)%nat cleaned
                (configured ++ [key_index])%list Hnext)
      as (m & Hm & Hconf & Hidx & Hno & Hfail & Hok).
    exists (S m). split_and!.
    - lia.
    - rewrite Hconf, rotation_S by done. by rewrite <- app_assoc.
    - rewrite Hidx, Nat.Div0.add_mod_idemp_l. f_equal. lia.
    - done.
    - intros st e He. destruct (Hfail st e He) as [-> ->]. done.
    - intros j Hj. destruct (Hok j Hj) as (m' & key & text & cl & -> & Hk & Hg & He & Hp).
      exists (S m'), key, text, cl. split_and!; try done.
      + replace (key_index + S m')%nat with (key_index + 1 + m')%nat by lia.
        by rewrite <- Nat.Div0.add_mod_idemp_l.
      + by replace (attempt + S m')%nat with (S attempt + m')%nat by lia. }
  simpl. rewrite Hkey.
  destruct (generate_content current_key attempt) as [|text] eqn:Hgen;
    [apply Hrec |].
  destruct (extract_json text) as [cleaned|] eqn:Hex.
  - destruct (json_loads_reply cleaned) as [j|] eqn:Hparse; [| apply Hrec].
    destruct Hone as (m & Hm & Hconf & Hidx & ->).
    exists 1%nat. simpl. split_and!; try done.
    intros j' [= <-]. exists 0%nat, current_key, text, cleaned.
    rewrite !Nat.add_0_r, Nat.mod_small by done. by split_and!.
  - destruct cleaned_response as [stale|]; [apply Hrec |].
    destruct Hone as (m & Hm & Hconf & Hidx & ->).
    exists 1%nat. simpl. by split_and!.
Qed.

Lemma rotation_length start m : length (rotation n start m) = m.
Proof. unfold rotation. by rewrite length_fmap, length_seq. Qed.

Lemma rotation_full start :
  (start < n)%nat ->
  NoDup (rotation n start n)
  /\ forall i, i ∈ rotation n start n <-> (i < n)%nat.
Proof.
  intros Hlt. assert (Hn : n ≠ 0%nat) by lia. unfold rotation. split.
  - apply NoDup_fmap_2_strong; [| apply NoDup_seq].
    intros i j [_ Hi]%elem_of_seq [_ Hj]%elem_of_seq Heq. simpl in *.
    destruct (decide (start + i < n)%nat) as [Hsi | Hsi],
             (decide (start + j < n)%nat) as [Hsj | Hsj].
    + rewrite !Nat.mod_small in Heq by done. lia.
    + rewrite (Nat.mod_small (start + i)) in Heq by done.
      replace (start + j)%nat with ((start + j - n) + 1 * n)%nat in Heq by lia.
      rewrite Nat.Div0.mod_add, Nat.mod_small in Heq by lia. lia.
    + rewrite (Nat.mod_small (start + j)) in Heq by done.
      replace (start + i)%nat with ((start + i - n) + 1 * n)%nat in Heq by lia.
      rewrite Nat.Div0.mod_add, Nat.mod_small in Heq by lia. lia.
    + replace (start + i)%nat with ((start + i - n) + 1 * n)%nat in Heq by lia.
      replace (start + j)%nat with ((start + j - n) + 1 * n)%nat in Heq by lia.
      rewrite !Nat.Div0.mod_add, !Nat.mod_small in Heq by lia. lia.
  - intros i. rewrite list_elem_of_fmap. split.
    + intros (j & -> & _). by apply Nat.mod_upper_bound.
    + intros Hi. destruct (decide (start <= i)%nat) as [Hle | Hle].
      * exists (i - start)%nat. split; [| apply elem_of_seq; lia].
        replace (start + (i - start))%nat with i by lia.
        by rewrite Nat.mod_small.
      * exists (i + n - start)%nat. split; [| apply elem_of_seq; lia].
        replace (start + (i + n - start))%nat with (i + 1 * n)%nat by lia.
        by rewrite Nat.Div0.mod_add, Nat.mod_small.
Qed.

End Rotation.

Section EnhanceProperties.

Variable J : Type.
Variable json_loads_reply : string -> option J.
Variable gemini_keys : list string.
Variable generate_content : string -> nat -> gemini_reply.

Local Abbreviation enhance :=
  (enhance_animation_prompt J json_loads_reply gemini_keys generate_content).
Local Abbreviation pool := (length gemini_keys).

Lemma extract_json_missing_brace text :
  occurs "{" text = false \/ occurs "}" text = false ->
  extract_json text = None.
Proof.
  unfold extract_json. intros [H | H].
  - by rewrite (proj1 (find_char_spec "{" text) H).
  - rewrite (proj1 (rfind_char_spec "}" text) H). simpl. by rewrite orb_true_r.
Qed.

Lemma enhance_loop image key_index :
  ((enhance image key_index).2 = [] /\ (enhance image key_index).1.2 = key_index
   /\ exists http_status error,
       (enhance image key_index).1.1 = EnhanceFailed http_status error
       /\ http_status ≠ 503)
  \/ (gemini_keys ≠ [] /\ image = ImageOpened
      /\ enhance image key_index
         = retry_loop J json_loads_reply gemini_keys generate_content
             pool 0 key_index None []).
Proof.
  unfold enhance_animation_prompt.
  destruct gemini_keys as [|key keys]; [left; split_and!; by eauto |].
  destruct image; [left; split_and!; by eauto.. |]. by right.
Qed.

(** X21.  A request that runs with no other enhancement request advancing
    [key_index] in the meantime, started with [key_index] inside the pool:
    whether it is rejected, served or given up, it never raises IndexError,
    it configures keys in rotation order starting at [key_index], at most
    one round of them, and it leaves [key_index] inside the pool, right
    after the last key it configured. *)
Theorem key_rotation_invariant image key_index :
  (key_index < pool)%nat ->
  ((enhance image key_index).1.2 < pool)%nat
  /\ (enhance image key_index).1.1 ≠ RaisesIndexError
  /\ (length (enhance image key_index).2 <= pool)%nat
  /\ (enhance image key_index).2
     = rotation pool key_index (length (enhance image key_index).2)
  /\ (enhance image key_index).1.2
     = ((key_index + length (enhance image key_index).2) mod pool)%nat.
Proof.
  intros Hlt. assert (Hn : pool ≠ 0%nat) by lia.
  destruct (enhance_loop image key_index)
    as [(Hconf & Hidx & st & e & Hr & _) | (_ & _ & ->)].
  - rewrite Hconf, Hidx, Hr. simpl.
    rewrite Nat.add_0_r, Nat.mod_small by done. split_and!; try done. lia.
  - destruct (retry_loop_rotation J json_loads_reply gemini_keys
                generate_content pool 0%nat key_index None [] Hlt)
      as (m & Hm & Hconf & Hidx & Hno & _).
    simpl in Hconf. rewrite Hconf, Hidx, rotation_length.
    split_and!; try done. by apply Nat.mod_upper_bound.
Qed.

(** X22.  A request that runs with no other enhancement request advancing
    [key_index] in the meantime is given up with 503 only after every key
    of the pool has been configured exactly once, in rotation order; it
    leaves [key_index] where it found it. *)
Theorem every_key_tried_before_503 image key_index error :
  (key_index < pool)%nat ->
  (enhance image key_index).1.1 = EnhanceFailed 503 error ->
  (enhance image key_index).2 = rotation pool key_index pool
  /\ NoDup (enhance image key_index).2
  /\ (forall i, i ∈ (enhance image key_index).2 <-> (i < pool)%nat)
  /\ (enhance image key_index).1.2 = key_index.
Proof.
  intros Hlt Hr.
  destruct (enhance_loop image key_index)
    as [(_ & _ & st & e & Hr' & Hst) | (_ & _ & Heq)];
    [rewrite Hr in Hr'; by injection Hr' as <- _ |].
  rewrite Heq in *.
  destruct (retry_loop_rotation J json_loads_reply gemini_keys
              generate_content pool 0%nat key_index None [] Hlt)
    as (m & Hm & Hconf & Hidx & _ & Hfail & _).
  destruct (Hfail _ _ Hr) as [-> _]. simpl in Hconf.
  destruct (rotation_full gemini_keys key_index Hlt) as [Hnd Hin].
  rewrite Hconf, Hidx. split_and!; try done.
  replace (key_index + pool)%nat with (key_index + 1 * pool)%nat by lia.
  by rewrite Nat.Div0.mod_add, Nat.mod_small.
Qed.

(** X23.  An answer that is returned was parsed from the braces of the
    reply to the last key configured, and the next request starts with the
    key after that one. *)
Theorem enhanced_from_last_key image key_index enhanced_prompts :
  (key_index < pool)%nat ->
  (enhance image key_index).1.1 = Enhanced enhanced_prompts ->
  exists m key text cleaned,
    (enhance image key_index).2 = rotation pool key_index (S m)
    /\ gemini_keys !! ((key_index + m) mod pool)%nat = Some key
    /\ generate_content key m = GeminiText text
    /\ extract_json text = Some cleaned
    /\ json_loads_reply cleaned = Some enhanced_prompts
    /\ (enhance image key_index).1.2 = ((key_index + m + 1) mod pool)%nat.
Proof.
  intros Hlt Hr.
  destruct (enhance_loop image key_index)
    as [(_ & _ & st & e & Hr' & _) | (_ & _ & Heq)];
    [by rewrite Hr in Hr' |].
  rewrite Heq in *.
  destruct (retry_loop_rotation J json_loads_reply gemini_keys
              generate_content pool 0%nat key_index None [] Hlt)
    as (m & Hm & Hconf & Hidx & _ & _ & Hok).
  destruct (Hok _ Hr) as (m' & key & text & cleaned & -> & Hk & Hg & He & Hp).
  exists m', key, text, cleaned. simpl in *.
  split_and!; try done. rewrite Hidx. f_equal. lia.
Qed.

(** X24.  When the reply to the first key of a request has no opening or
    no closing brace, the handler does not move on to the next key: logging
    the failure reads [cleaned_response] before any assignment, and the
    request ends with UnboundLocalError after one key. *)
Theorem unbound_cleaned_response key_index key text :
  gemini_keys !! key_index = Some key ->
  generate_content key 0%nat = GeminiText text ->
  occurs "{" text = false \/ occurs "}" text = false ->
  enhance ImageOpened key_index
  = (RaisesUnboundLocalError, ((key_index + 1) mod pool)%nat, [key_index]).
Proof.
  intros Hkey Hgen Hbrace. unfold enhance_animation_prompt.
  destruct gemini_keys as [|key0 keys] eqn:Hkeys; [done |].
  rewrite <- Hkeys in *.
  assert (Hlen : pool = S (length keys)) by by rewrite Hkeys.
  rewrite Hlen at 1. simpl.
  by rewrite Hkey, Hgen, extract_json_missing_brace.
Qed.

End EnhanceProperties.

Lemma key_rotation_invariant_witness :
  (enhance_animation_prompt string sample_json_loads_reply sample_keys
     sample_generate_content ImageOpened 0).1.2 = 2%nat
  /\ (enhance_animation_prompt string sample_json_loads_reply sample_keys
        sample_generate_content ImageOpened 0).2 = [0; 1]%nat.
Proof.
  destruct (key_rotation_invariant string sample_json_loads_reply sample_keys
              sample_generate_content ImageOpened 0) as (_ & _ & _ & H1 & H2);
    [simpl; lia |].
  split; [exact H2 | exact H1].
Defined.

Lemma every_key_tried_before_503_witness :
  (enhance_animation_prompt string (fun _ => None) sample_keys
     (fun _ _ => GeminiError) ImageOpened 1).2 = [1; 2; 0]%nat
  /\ (enhance_animation_prompt string (fun _ => None) sample_keys
        (fun _ _ => GeminiError) ImageOpened 1).1.2 = 1%nat.
Proof.
  destruct (every_key_tried_before_503 string (fun _ => None) sample_keys
              (fun _ _ => GeminiError) ImageOpened 1
              "The AI enhancement service is temporarily unavailable. Please try again later.")
    as (H1 & _ & _ & H2); [simpl; lia | reflexivity |].
  split; [exact H1 | exact H2].
Defined.

Lemma enhanced_from_last_key_witness :
  exists m key text cleaned,
    (enhance_animation_prompt string sample_json_loads_reply sample_keys
       sample_generate_content ImageOpened 0).2
    = rotation (length sample_keys) 0 (S m)
    /\ sample_keys !! ((0 + m) mod length sample_keys)%nat = Some key
    /\ sample_generate_content key m = GeminiText text
    /\ extract_json text = Some cleaned
    /\ sample_json_loads_reply cleaned = Some sample_reply_object
    /\ (enhance_animation_prompt string sample_json_loads_reply sample_keys
          sample_generate_content ImageOpened 0).1.2
       = ((0 + m + 1) mod length sample_keys)%nat.
Proof.
  apply (enhanced_from_last_key string sample_json_loads_reply sample_keys
           sample_generate_content ImageOpened 0 sample_reply_object);
    [simpl; lia | reflexivity].
Defined.

Lemma unbound_cleaned_response_witness :
  enhance_animation_prompt string sample_json_loads_reply sample_keys
    sample_generate_content ImageOpened 2
  = (RaisesUnboundLocalError, ((2 + 1) mod length sample_keys)%nat, [2%nat]).
Proof.
  apply (unbound_cleaned_response string sample_json_loads_reply sample_keys
           sample_generate_content 2 "k2" "Sorry, I cannot help.");
    [reflexivity | reflexivity | by left].
Defined.
